(** * CSV log comparator: the loader and the differ

    A shallow embedding of [load_csv_to_dict] and [compare_dicts] of
    [test-version1.py], together with the part of [csv.DictReader] the loader
    relies on, and the properties of the two functions.

    Python dictionaries are finite maps ([gmap]), Python sets are finite sets
    ([gset]); dictionary equality in Python ignores insertion order, as
    equality of [gmap]s does.  Code that can raise lives in the [result]
    monad. *)

From Stdlib Require Import Ascii.
From stdpp Require Import gmap strings list fin_maps pretty sorting.

Set Warnings "-clear-no-such-hyp,-register-all".

Local Open Scope string_scope.
Local Open Scope list_scope.

(** ** Exceptions *)

Inductive exn : Type :=
  | FileNotFoundError
  | PermissionError
  | KeyError
  | TypeError.

Inductive result (A : Type) : Type :=
  | Ok (a : A)
  | Raise (e : exn).
Arguments Ok {A} a.
Arguments Raise {A} e.

#[global] Instance result_ret : MRet result := λ A a, Ok a.
#[global] Instance result_bind : MBind result := λ A B f r,
  match r with
  | Ok a => f a
  | Raise e => Raise e
  end.

(** [for x in xs: s = body x s], stopping at the first exception. *)
Fixpoint for_each {A S : Type} (xs : list A) (body : A → S → result S) (s : S)
    : result S :=
  match xs with
  | [] => Ok s
  | x :: xs' => s' ← body x s; for_each xs' body s'
  end.

(** ** Data model *)

(** A cell of a row as [csv.DictReader] builds it: a field of the record
    ([str]), [None] for a column the record is too short to reach (the
    reader's [restval]), or the list of surplus fields of a record that is
    longer than the header. *)
Inductive value : Type :=
  | VStr (s : string)
  | VNone
  | VList (l : list string).

#[global] Instance value_eq_dec : EqDecision value.
Proof. solve_decision. Defined.

(** A column name: a field name of the header, or [None], the reader's
    [restkey], under which the surplus fields are stored. *)
Abbreviation column := (option string).

Abbreviation Row := (gmap column value).
Abbreviation Snapshot := (gmap string Row).
Abbreviation Diffs := (gmap column (value * value)).
Abbreviation Changed := (gmap string Diffs).

(** [d[k]]: raises [KeyError] when the key is missing. *)
Definition getitem `{Countable K} {V : Type} (d : gmap K V) (k : K) : result V :=
  match d !! k with
  | Some v => Ok v
  | None => Raise KeyError
  end.

(** [d.get(k)]: [None] when the key is missing. *)
Definition dict_get (d : Row) (k : column) : value :=
  default VNone (d !! k).

(** ** The reader: [csv.DictReader]

    A file is taken as the sequence of records [csv.reader] yields on it,
    each a list of fields; a blank line is the empty record. *)

(** [dict(zip(fieldnames, row))]: a later pair overwrites an earlier one
    with the same field name. *)
Fixpoint dict_zip (fieldnames row : list string) (d : Row) : Row :=
  match fieldnames, row with
  | f :: fieldnames', x :: row' => dict_zip fieldnames' row' (<[Some f := VStr x]> d)
  | _, _ => d
  end.

(** [for key in keys: d[key] = restval], with [restval = None]. *)
Definition pad_restval (keys : list string) (d : Row) : Row :=
  foldl (λ d key, <[Some key := VNone]> d) d keys.

(** The dictionary [DictReader.__next__] returns for one non-blank record. *)
Definition DictReader_row (fieldnames row : list string) : Row :=
  let d := dict_zip fieldnames row ∅ in
  let lf := length fieldnames in
  let lr := length row in
  if decide (lf < lr) then <[None := VList (drop lf row)]> d
  else if decide (lr < lf) then pad_restval (drop lr fieldnames) d
  else d.

(** The records the reader keeps: [while row == []: row = next(self.reader)]. *)
Definition nonblank (records : list (list string)) : list (list string) :=
  filter (λ row, row ≠ []) records.

(** All the rows [for row in reader] goes through.  The first record is the
    header; with no record at all the reader has no field names and yields
    nothing. *)
Definition DictReader (records : list (list string)) : list Row :=
  match records with
  | [] => []
  | fieldnames :: records' => DictReader_row fieldnames <$> nonblank records'
  end.

(** ** The loader: [load_csv_to_dict] *)

(** A path of the file system either names a file that can be read, with
    its records, or one that cannot be opened for reading. *)
Inductive file : Type :=
  | Readable (records : list (list string))
  | Unreadable.

Abbreviation filesystem := (gmap string file).

(** [open(file_path, newline='', encoding='utf-8')] *)
Definition open (fs : filesystem) (file_path : string) : result (list (list string)) :=
  match fs !! file_path with
  | None => Raise FileNotFoundError
  | Some Unreadable => Raise PermissionError
  | Some (Readable records) => Ok records
  end.

(** The body of the loop: [key = row.get(key_column)], then
    [data[key] = row] unless the key is [None].  A list cannot be a
    dictionary key. *)
Definition load_row (key_column : string) (row : Row) (data : Snapshot)
    : result Snapshot :=
  match dict_get row (Some key_column) with
  | VNone => Ok data
  | VStr key => Ok (<[key := row]> data)
  | VList _ => Raise TypeError
  end.

Definition load_records (records : list (list string)) (key_column : string)
    : result Snapshot :=
  for_each (DictReader records) (load_row key_column) ∅.

Definition load_csv_to_dict (fs : filesystem) (file_path : string)
    (key_column : string) : result Snapshot :=
  records ← open fs file_path;
  load_records records key_column.

(** ** The differ: [compare_dicts] *)

(** The inner loop, over the columns of the old row. *)
Definition compare_column (old_row new_row : Row) (col : column) (diffs : Diffs)
    : result Diffs :=
  old_value ← getitem old_row col;
  if decide (old_value ≠ dict_get new_row col)
  then Ok (<[col := (old_value, dict_get new_row col)]> diffs)
  else Ok diffs.

(** The outer loop, over the common keys. *)
Definition compare_key (old_data new_data : Snapshot) (key : string)
    (changed : Changed) : result Changed :=
  old_row ← getitem old_data key;
  new_row ← getitem new_data key;
  diffs ← for_each (elements (dom old_row)) (compare_column old_row new_row) ∅;
  if decide (diffs ≠ ∅) then Ok (<[key := diffs]> changed) else Ok changed.

Definition compare_dicts (old_data new_data : Snapshot)
    : result (gset string * gset string * Changed) :=
  let old_keys := dom old_data in
  let new_keys := dom new_data in
  let added := new_keys ∖ old_keys in
  let removed := old_keys ∖ new_keys in
  let common := old_keys ∩ new_keys in
  changed ← for_each (elements common) (compare_key old_data new_data) ∅;
  Ok (added, removed, changed).

(** ** File names: [extract_prefix_and_type], [file_starts_with_date]

    A Python string is a sequence of code points.  The literals of the
    source are in ASCII; a file name can hold any code point. *)

Abbreviation str := (list N).

(** The string of a literal in ASCII. *)
Fixpoint code_points (s : string) : str :=
  match s with
  | EmptyString => []
  | String c s' => N_of_ascii c :: code_points s'
  end.

Definition newline : N := 10.

(** What the regular expressions take from the interpreter: the characters
    [\d] matches.  In a pattern that is a [str] these are the decimal digits
    of the Unicode database the interpreter was built with (category Nd).
    In every version of the database the ten digits of ASCII are among
    them, and no other character of ASCII is. *)
Class Unicode : Type := {
  decimal : N → bool;
  decimal_ascii (c : N) :
    (c < 128)%N → decimal c = (48 <=? c)%N && (c <=? 57)%N
}.

(** The decimal digits of Unicode 14.0, the database of Python 3.11, as
    ranges of code points. *)
Definition Nd_14 : list (N * N) :=
  [(48, 57); (1632, 1641); (1776, 1785); (1984, 1993); (2406, 2415);
   (2534, 2543); (2662, 2671); (2790, 2799); (2918, 2927); (3046, 3055);
   (3174, 3183); (3302, 3311); (3430, 3439); (3558, 3567); (3664, 3673);
   (3792, 3801); (3872, 3881); (4160, 4169); (4240, 4249); (6112, 6121);
   (6160, 6169); (6470, 6479); (6608, 6617); (6784, 6793); (6800, 6809);
   (6992, 7001); (7088, 7097); (7232, 7241); (7248, 7257); (42528, 42537);
   (43216, 43225); (43264, 43273); (43472, 43481); (43504, 43513);
   (43600, 43609); (44016, 44025); (65296, 65305); (66720, 66729);
   (68912, 68921); (69734, 69743); (69872, 69881); (69942, 69951);
   (70096, 70105); (70384, 70393); (70736, 70745); (70864, 70873);
   (71248, 71257); (71360, 71369); (71472, 71481); (71904, 71913);
   (72016, 72025); (72784, 72793); (73040, 73049); (73120, 73129);
   (92768, 92777); (92864, 92873); (93008, 93017); (120782, 120831);
   (123200, 123209); (123632, 123641); (125264, 125273); (130032, 130041)]%N.

Definition in_range (c : N) (range : N * N) : bool :=
  (range.1 <=? c)%N && (c <=? range.2)%N.

Definition decimal_14 (c : N) : bool := existsb (in_range c) Nd_14.

#[global] Instance unicode_14 : Unicode.
Proof.
  refine {| decimal := decimal_14 |}.
  intros c Hc. unfold decimal_14, Nd_14. cbn [existsb].
  change (in_range c (48, 57)%N) with ((48 <=? c)%N && (c <=? 57)%N).
  rewrite <- (orb_false_r ((48 <=? c)%N && (c <=? 57)%N)) at 2. f_equal.
  unfold in_range. cbn [fst snd].
  repeat match goal with
  | |- context [(?lo <=? c)%N] =>
      replace (lo <=? c)%N with false by (symmetry; apply N.leb_gt; lia)
  end.
  reflexivity.
Defined.

(** One position of a pattern of fixed length: [\d] or a literal. *)
Inductive atom : Type :=
  | Digit
  | Lit (c : ascii).

Definition atom_matches `{Unicode} (a : atom) (c : N) : bool :=
  match a with
  | Digit => decimal c
  | Lit c' => (c =? N_of_ascii c')%N
  end.

(** Match a pattern of fixed length at the start of a string: the part
    matched and the rest. *)
Fixpoint match_atoms `{Unicode} (pattern : list atom) (s : str)
    : option (str * str) :=
  match pattern with
  | [] => Some ([], s)
  | a :: pattern' =>
      match s with
      | [] => None
      | c :: s' =>
          if atom_matches a c
          then prod_map (cons c) id <$> match_atoms pattern' s'
          else None
      end
  end.

(** [\d{4}-\d{2}-\d{2}_\d{2}-\d{2}] *)
Definition date_time_pattern : list atom :=
  [Digit; Digit; Digit; Digit; Lit "-"; Digit; Digit; Lit "-"; Digit; Digit;
   Lit "_"; Digit; Digit; Lit "-"; Digit; Digit].

(** [(.+)\.csv$] on the whole of a string: the group is one or more
    characters other than the line feed, and [$] matches at the end of the
    string or before a line feed that ends it. *)
Fixpoint match_log_type (s : str) : option str :=
  match s with
  | [] => None
  | c :: s' =>
      if (c =? newline)%N then None
      else if bool_decide (s' = code_points ".csv")
              || bool_decide (s' = code_points ".csv" ++ [newline])
      then Some [c]
      else cons c <$> match_log_type s'
  end.

(** [re.match(r"^(\d{4}-\d{2}-\d{2}_\d{2}-\d{2})_(.+)\.csv$", filename)]
    and the two groups, or [(None, None)]. *)
Definition extract_prefix_and_type `{Unicode} (filename : str)
    : option str * option str :=
  match match_atoms date_time_pattern filename with
  | Some (date_time, rest) =>
      match match_atoms [Lit "_"] rest with
      | Some (_, rest') =>
          match match_log_type rest' with
          | Some log_type => (Some date_time, Some log_type)
          | None => (None, None)
          end
      | None => (None, None)
      end
  | None => (None, None)
  end.

(** [bool(re.match(r"^\d{4}-\d{2}-\d{2}_\d{2}-\d{2}_", filename))] *)
Definition file_starts_with_date `{Unicode} (filename : str) : bool :=
  match match_atoms (date_time_pattern ++ [Lit "_"]) filename with
  | Some _ => true
  | None => false
  end.

(** A string the date pattern matches from its first to its last
    character, as [strftime("%Y-%m-%d_%H-%M")] produces for a year of four
    digits. *)
Definition date_time_format `{Unicode} (s : str) : Prop :=
  match_atoms date_time_pattern s = Some (s, []).

(** A string without a line feed: each character is matched by [.]. *)
Definition one_line (s : str) : bool :=
  forallb (λ c, negb (c =? newline)%N) s.

(** The names [rename_files_with_date_prefix] gives a file:
    [f"{mod_date}_{original_name}"], and after a collision
    [f"{mod_date}_{counter}_{original_name}"]. *)
Definition dated_name (mod_date original_name : str) : str :=
  mod_date ++ code_points "_" ++ original_name.

Definition dated_name_counter (mod_date : str) (counter : nat)
    (original_name : str) : str :=
  mod_date ++ code_points "_" ++ code_points (pretty counter)
    ++ code_points "_" ++ original_name.

(** ** The selections of [main]

    The numbers read from the keyboard, once [int] has parsed them, and what
    [main] selects with them; [None] stands for the [IndexError] that
    [main] turns into a message and a [return]. *)

(** [l[i]], with Python's negative indices. *)
Definition py_index {A : Type} (l : list A) (i : Z) : option A :=
  if decide (0 ≤ i)%Z then l !! Z.to_nat i
  else if decide (- Z.of_nat (length l) ≤ i)%Z
       then l !! Z.to_nat (Z.of_nat (length l) + i)
       else None.

(** [selected_log_type = list(logs.keys())[choice - 1]] *)
Definition select_log_type (log_types : list string) (choice : Z)
    : option string :=
  py_index log_types (choice - 1).

(** The check on the two version numbers, then [versions[old_idx - 1]] and
    [versions[new_idx - 1]]. *)
Definition select_versions {A : Type} (versions : list A) (old_idx new_idx : Z)
    : option (A * A) :=
  if decide (old_idx < 1 ∨ old_idx > Z.of_nat (length versions) ∨
             new_idx < 1 ∨ new_idx > Z.of_nat (length versions))%Z
  then None
  else
    old_file ← py_index versions (old_idx - 1);
    new_file ← py_index versions (new_idx - 1);
    Some (old_file, new_file).

(** ** The folder of the logs: [rename_files_with_date_prefix]

    A directory is a finite map from names to entries; the names are told
    apart as the strings they are.  An entry is a regular file, with its
    modification time as [strftime("%Y-%m-%d_%H-%M")] renders it and with
    its records; or a directory; or a symbolic link, with the entry it
    leads to outside of the directory, if it leads anywhere; or something
    else that exists.  What is printed is left out. *)

Inductive node : Type :=
  | File (mod_date : str) (records : list (list string))
  | Dir (content : gmap str node)
  | Symlink (target : option node)
  | Other.

Abbreviation directory := (gmap str node).

(** What [os.stat] finds for an entry: the entry at the end of the links,
    if there is one. *)
Fixpoint stat (entry : node) : option node :=
  match entry with
  | Symlink target =>
      match target with
      | Some entry' => stat entry'
      | None => None
      end
  | _ => Some entry
  end.

(** [path.exists()], [path.is_file()] and [path.is_dir()], for the path of
    a name in the directory: all three follow the links. *)
Definition path_exists (folder : directory) (name : str) : bool :=
  match folder !! name ≫= stat with
  | Some _ => true
  | None => false
  end.

Definition is_file (folder : directory) (name : str) : bool :=
  match folder !! name ≫= stat with
  | Some (File _ _) => true
  | _ => false
  end.

Definition is_dir (folder : directory) (name : str) : bool :=
  match folder !! name ≫= stat with
  | Some (Dir _) => true
  | _ => false
  end.

(** The loop [while new_path.exists()], entered with the name
    [new_name] and the value [counter]: the first name that does not exist.
    The loop has no bound; the fuel is the number of names it may try after
    the first, and a directory never needs more than it has entries. *)
Fixpoint free_dated_name (fuel : nat) (folder : directory)
    (mod_date original_name new_name : str) (counter : nat)
    : option str :=
  if path_exists folder new_name
  then
    match fuel with
    | 0 => None
    | S fuel' =>
        free_dated_name fuel' folder mod_date original_name
          (dated_name_counter mod_date counter original_name) (S counter)
    end
  else Some new_name.

(** The body of the loop over the directory, for one name, when none of
    its calls fails.  [rename] moves the entry itself, a link as a link,
    and replaces what the new name holds: the loop has found that nothing
    exists under it, which leaves a link that leads nowhere. *)
Definition rename_file `{Unicode} (folder : directory) (original_name : str)
    : directory :=
  match folder !! original_name with
  | Some entry =>
      match stat entry with
      | Some (File mod_date _) =>
          if file_starts_with_date original_name then folder
          else
            match free_dated_name (size folder) folder mod_date original_name
                    (dated_name mod_date original_name) 1 with
            | Some new_name =>
                <[new_name := entry]> (delete original_name folder)
            | None => folder
            end
      | _ => folder
      end
  | None => folder
  end.

(** What a call of the operating system, a conversion of the modification
    time or [print] raises when it fails, and what the keyboard can raise
    at any time. *)
Inductive error : Type :=
  | OSError (errno : nat)
  | ValueError
  | OverflowError
  | KeyboardInterrupt.

(** What the directory tree does not tell.  [iterdir] gives the names of a
    directory in the order of the operating system, or fails.  [raises]
    tells if the body of the loop fails for a name in a state of the
    directory, and with what: [is_file], [os.path.getmtime], [exists] and
    [rename] can fail with an [OSError] (a name too long, a permission
    missing), [datetime.fromtimestamp] on a time out of range, and [print]
    on a name the console cannot encode.  All these come before the
    renaming or are the renaming, so that a body that fails leaves the
    directory as it found it. *)
Record system : Type := System {
  iterdir : directory → error + list str;
  raises : directory → str → option error
}.

(** The loop: the directory it ends with, and the exception that ended
    it, if any.  There is no handler, in the function or in [main]. *)
Fixpoint rename_loop `{Unicode} (os : system) (folder : directory)
    (names : list str) : directory * option error :=
  match names with
  | [] => (folder, None)
  | original_name :: names' =>
      match raises os folder original_name with
      | Some e => (folder, Some e)
      | None => rename_loop os (rename_file folder original_name) names'
      end
  end.

(** The names are read before the first file is renamed. *)
Definition rename_files_with_date_prefix `{Unicode} (os : system)
    (folder : directory) : directory * option error :=
  match iterdir os folder with
  | inl e => (folder, Some e)
  | inr names => rename_loop os folder names
  end.

(** A system whose listings hold each name once, in some order. *)
Definition lists_directory (os : system) : Prop :=
  ∀ folder, ∃ names,
    iterdir os folder = inr names ∧ names ≡ₚ elements (dom folder).

(** A system on which the body of the loop never fails. *)
Definition never_raises (os : system) : Prop :=
  ∀ folder name, raises os folder name = None.

(** A directory without symbolic links. *)
Definition no_symlinks (folder : directory) : Prop :=
  ∀ name target, folder !! name ≠ Some (Symlink target).

(** Every file of the directory has a modification date in the format
    [YYYY-MM-DD_HH-MM]. *)
Definition dates_well_formed `{Unicode} (folder : directory) : Prop :=
  ∀ name mod_date records,
    folder !! name = Some (File mod_date records) → date_time_format mod_date.

(** An entry the renaming pass has nothing to do for: a file whose name
    starts with a date, or an entry that is not a regular file. *)
Definition settled `{Unicode} (name : str) (entry : node) : Prop :=
  ∀ mod_date records,
    entry = File mod_date records → file_starts_with_date name = true.

(** The system that lists the names in the order of the map and on which
    nothing fails, and the same with the listing reversed. *)
Definition by_name : system :=
  System (λ folder, inr (elements (dom folder))) (λ _ _, None).

Definition by_name_reversed : system :=
  System (λ folder, inr (reverse (elements (dom folder)))) (λ _ _, None).

(** A system with names of 255 characters at most: the body of the loop
    fails, with the error number of [ENAMETOOLONG], on a file whose dated
    name would be longer. *)
Definition name_max : system :=
  System (λ folder, inr (elements (dom folder)))
    (λ folder name,
      if is_file folder name && bool_decide (238 < length name)%nat
      then Some (OSError 36) else None).

Definition logs0 : directory :=
  {[ code_points "digital.csv" :=
       File (code_points "2024-03-05_14-30") [["id"]; ["1"]];
     code_points "2024-03-05_14-30_digital.csv" :=
       File (code_points "2024-03-05_14-30") [["id"]];
     code_points "notes.txt" := File (code_points "2024-01-02_08-00") [];
     code_points "archive" := Dir ∅ ]}.

Definition long_name : str := replicate 236 97%N ++ code_points ".csv".

Definition logs2 : directory :=
  {[ long_name := File (code_points "2024-03-05_14-30") [];
     code_points "notes.txt" := File (code_points "2024-01-02_08-00") [] ]}.

(** ** Running the code on small files *)

Definition old_file : list (list string) :=
  [["id"; "status"]; ["1"; "open"]; ["2"; "open"]].
Definition new_file : list (list string) :=
  [["id"; "status"]; ["2"; "closed"]; ["3"; "open"]].

Definition fs0 : filesystem :=
  {[ "logs/a/old.csv" := Readable old_file;
     "logs/a/new.csv" := Readable new_file;
     "logs/a/locked.csv" := Unreadable ]}.

(** A record that stops before column [a], and a later version of the file
    that has dropped the column. *)
Definition short_file : list (list string) := [["id"; "a"]; ["5"]].
Definition narrow_file : list (list string) := [["id"]; ["5"]].

Definition short_data : Snapshot :=
  {[ "5" := {[ Some "id" := VStr "5"; Some "a" := VNone ]} ]}.
Definition narrow_data : Snapshot :=
  {[ "5" := {[ Some "id" := VStr "5" ]} ]}.

(** The absent-column scenario: the old row has [id], [a] and [b], the new
    row only [id] and [a], plus a column [c] the old row does not have. *)
Definition wide_data : Snapshot :=
  {[ "k" := {[ Some "id" := VStr "k"; Some "a" := VStr "1"; Some "b" := VStr "" ]} ]}.
Definition shrunk_data : Snapshot :=
  {[ "k" := {[ Some "id" := VStr "k"; Some "a" := VStr "1 "; Some "c" := VStr "new" ]} ]}.

(** The sentence of the specification on absent columns, read literally:
    whenever the new row lacks a column of the old row, the differ records
    the pair made of the old value and the absent value. *)
Definition absent_column_recorded (old_data new_data : Snapshot) : Prop :=
  ∀ key old_row new_row col old_value,
    old_data !! key = Some old_row →
    new_data !! key = Some new_row →
    old_row !! col = Some old_value →
    new_row !! col = None →
    ∃ added removed changed diffs,
      compare_dicts old_data new_data = Ok (added, removed, changed) ∧
      changed !! key = Some diffs ∧
      diffs !! col = Some (old_value, VNone).

(** Files that are not well formed, a file with a repeated key, and a file
    whose first record stops before the key column. *)
Definition ragged_file : list (list string) :=
  [["id"; "a"]; ["1"]; ["2"; "x"; "y"]].
Definition dup_file : list (list string) :=
  [["id"; "v"]; ["7"; "a"]; ["8"; "x"]; ["7"; "b"]; ["9"; "z"]].
Definition keyless_file : list (list string) :=
  [["a"; "id"]; ["x"]; ["y"; "2"]].
Definition empty_key_file : list (list string) :=
  [["id"; "a"]; [""; "x"]; ["1"; "y"]].

Definition fs1 : filesystem :=
  {[ "logs/b/empty.csv" := Readable [];
     "logs/b/nokey.csv" := Readable [["name"]; ["x"]];
     "logs/b/ragged.csv" := Readable ragged_file;
     "logs/b/dup.csv" := Readable dup_file;
     "logs/b/keyless.csv" := Readable keyless_file;
     "logs/b/emptykey.csv" := Readable empty_key_file ]}.

(** The errors [open] raises, the [NotFound] kind of the specification:
    both are [OSError]s in Python. *)
Definition NotFound (e : exn) : Prop :=
  e = FileNotFoundError ∨ e = PermissionError.

Definition fails {A : Type} (r : result A) : Prop := ∃ e, r = Raise e.

(** The sentence of the specification on records without a key, read
    literally: a record whose key-column value is absent or empty leaves no
    trace in the snapshot, which is that of the file without the record. *)
Definition absent_or_empty_key_skipped (fieldnames : list string)
    (pre : list (list string)) (r : list string) (post : list (list string))
    (key_column : string) : Prop :=
  dict_get (DictReader_row fieldnames r) (Some key_column) = VNone ∨
  dict_get (DictReader_row fieldnames r) (Some key_column) = VStr "" →
  load_records (fieldnames :: pre ++ r :: post) key_column =
    load_records (fieldnames :: pre ++ post) key_column.

(** The input the specification calls malformed: no header, a header
    without the key column, or a record with another number of fields than
    the header. *)
Definition malformed (records : list (list string)) (key_column : string)
    : Prop :=
  match records with
  | [] => True
  | fieldnames :: records' =>
      key_column ∉ fieldnames ∨
      ∃ r, r ∈ records' ∧ length r ≠ length fieldnames
  end.

(** The sentence of the specification on malformed input, read literally. *)
Definition malformed_input_fails (fs : filesystem) (file_path : string)
    (key_column : string) : Prop :=
  ∀ records,
    fs !! file_path = Some (Readable records) →
    malformed records key_column →
    fails (load_csv_to_dict fs file_path key_column).

(** ** Closed forms of the two loops of the differ *)

(** What the inner loop records for one column of the old row. *)
Definition column_diff (new_row : Row) (col : column) (old_value : value)
    : option (value * value) :=
  if decide (old_value ≠ dict_get new_row col)
  then Some (old_value, dict_get new_row col)
  else None.

Definition row_diffs (old_row new_row : Row) : Diffs :=
  map_imap (column_diff new_row) old_row.

(** What the outer loop records for one key of the old snapshot. *)
Definition key_diffs (new_data : Snapshot) (key : string) (old_row : Row)
    : option Diffs :=
  new_row ← new_data !! key;
  let diffs := row_diffs old_row new_row in
  if decide (diffs ≠ ∅) then Some diffs else None.

Definition changed_rows (old_data new_data : Snapshot) : Changed :=
  map_imap (key_diffs new_data) old_data.

(** What [changed] holds for a key and a column: [changed[key][col]] when
    both entries exist. *)
Definition recorded (changed : Changed) (key : string) (col : column)
    : option (value * value) :=
  changed !! key ≫= (.!! col).

(** ** Closed form of the loop of the loader *)

(** The key a row is stored under, when it is a string. *)
Definition has_key (key_column key : string) (row : Row) : Prop :=
  dict_get row (Some key_column) = VStr key.

#[global] Instance has_key_dec key_column key row :
  Decision (has_key key_column key row).
Proof. unfold has_key. apply _. Defined.

(** The last of the rows stored under [key]. *)
Definition last_with_key (key_column key : string) (rows : list Row)
    : option Row :=
  last (filter (has_key key_column key) rows).

(** A row without a list under a field name: what the reader builds. *)
Definition plain (d : Row) : Prop :=
  ∀ f l, d !! Some f ≠ Some (VList l).

(** ** Proofs *)

Section for_each.
Context `{Countable K} {V : Type}.
Implicit Types (m : gmap K V) (f : K → option V).

(** A loop whose body either stores an entry under the loop variable or
    leaves the dictionary alone never raises, and its result is read
    off [f]. *)
Lemma for_each_insert (body : K → gmap K V → result (gmap K V)) f xs m :
  (∀ x m, x ∈ xs → body x m = Ok (from_option (λ v, <[x := v]> m) m (f x))) →
  ∃ m', for_each xs body m = Ok m' ∧
    ∀ k, m' !! k =
      if decide (k ∈ xs) then from_option Some (m !! k) (f k) else m !! k.
Proof.
  revert m. induction xs as [|x xs IH]; intros m Hbody.
  - exists m. split; [done|]. intros k. by rewrite decide_False by set_solver.
  - simpl. rewrite Hbody by set_solver. simpl.
    destruct (IH (from_option (λ v, <[x := v]> m) m (f x))) as (m' & -> & Hm').
    { intros y m0 Hy. apply Hbody. set_solver. }
    exists m'. split; [done|]. intros k. rewrite Hm'.
    destruct (decide (k = x)) as [->|Hne].
    + rewrite (decide_True (P := x ∈ x :: xs)) by set_solver.
      destruct (f x) as [v|]; simpl.
      * rewrite lookup_insert_eq. by case_decide.
      * by case_decide.
    + assert (k ∈ x :: xs ↔ k ∈ xs) as Hiff
        by (rewrite elem_of_cons; naive_solver).
      assert (from_option (λ v, <[x := v]> m) m (f x) !! k = m !! k) as ->.
      { destruct (f x); simpl; [by rewrite lookup_insert_ne|done]. }
      destruct (decide (k ∈ xs)).
      * by rewrite decide_True by tauto.
      * by rewrite decide_False by tauto.
Qed.
End for_each.

Section differ.
Implicit Types (old_data new_data : Snapshot) (old_row new_row : Row).

Lemma compare_column_spec old_row new_row col diffs :
  col ∈ dom old_row →
  compare_column old_row new_row col diffs =
    Ok (from_option (λ p, <[col := p]> diffs) diffs
          (old_row !! col ≫= column_diff new_row col)).
Proof.
  intros [v Hv]%elem_of_dom. unfold compare_column, getitem, column_diff.
  rewrite Hv. simpl. by case_decide.
Qed.

Lemma compare_columns_ok old_row new_row :
  for_each (elements (dom old_row)) (compare_column old_row new_row) ∅ =
    Ok (row_diffs old_row new_row).
Proof.
  destruct (for_each_insert (compare_column old_row new_row)
              (λ col, old_row !! col ≫= column_diff new_row col)
              (elements (dom old_row)) ∅) as (diffs & -> & Hdiffs).
  { intros col d Hcol. apply compare_column_spec. by apply elem_of_elements. }
  f_equal. apply map_eq. intros col. rewrite Hdiffs.
  unfold row_diffs. rewrite map_lookup_imap, lookup_empty.
  case_decide as Hcol.
  - by destruct (old_row !! col ≫= column_diff new_row col).
  - rewrite elem_of_elements, not_elem_of_dom in Hcol. by rewrite Hcol.
Qed.

Lemma compare_key_spec old_data new_data key changed :
  key ∈ dom old_data ∩ dom new_data →
  compare_key old_data new_data key changed =
    Ok (from_option (λ d, <[key := d]> changed) changed
          (old_data !! key ≫= key_diffs new_data key)).
Proof.
  intros [[old_row Ho]%elem_of_dom [new_row Hn]%elem_of_dom]%elem_of_intersection.
  unfold compare_key, getitem, key_diffs. rewrite Ho, Hn. simpl.
  rewrite compare_columns_ok. simpl. by case_decide.
Qed.

(** The differ never raises, and its three results have closed forms. *)
Lemma compare_dicts_ok old_data new_data :
  compare_dicts old_data new_data =
    Ok (dom new_data ∖ dom old_data, dom old_data ∖ dom new_data,
        changed_rows old_data new_data).
Proof.
  unfold compare_dicts.
  destruct (for_each_insert (compare_key old_data new_data)
              (λ key, old_data !! key ≫= key_diffs new_data key)
              (elements (dom old_data ∩ dom new_data)) ∅) as (changed & -> & Hch).
  { intros key c Hkey. apply compare_key_spec. by apply elem_of_elements. }
  simpl. do 2 f_equal. apply map_eq. intros key. rewrite Hch.
  unfold changed_rows. rewrite map_lookup_imap, lookup_empty.
  case_decide as Hkey.
  - by destruct (old_data !! key ≫= key_diffs new_data key).
  - rewrite elem_of_elements, elem_of_intersection, !elem_of_dom in Hkey.
    destruct (old_data !! key) as [old_row|] eqn:Ho; [|done]. simpl.
    unfold key_diffs. destruct (new_data !! key) eqn:Hn; [|done].
    exfalso. apply Hkey. eauto.
Qed.

Lemma row_diffs_lookup old_row new_row col :
  row_diffs old_row new_row !! col = old_row !! col ≫= column_diff new_row col.
Proof. apply map_lookup_imap. Qed.

Lemma changed_rows_lookup old_data new_data key :
  changed_rows old_data new_data !! key =
    old_data !! key ≫= key_diffs new_data key.
Proof. apply map_lookup_imap. Qed.

Lemma changed_rows_Some old_data new_data key diffs :
  changed_rows old_data new_data !! key = Some diffs ↔
  ∃ old_row new_row,
    old_data !! key = Some old_row ∧ new_data !! key = Some new_row ∧
    diffs = row_diffs old_row new_row ∧ diffs ≠ ∅.
Proof.
  rewrite changed_rows_lookup. unfold key_diffs. split.
  - destruct (old_data !! key) as [old_row|]; [simpl|done].
    destruct (new_data !! key) as [new_row|]; [simpl|done].
    case_decide; [|done]. intros [= <-]. by eexists _, _.
  - intros (old_row & new_row & -> & -> & -> & Hne). simpl.
    by rewrite decide_True.
Qed.

Lemma recorded_changed_rows old_data new_data key old_row new_row col :
  old_data !! key = Some old_row →
  new_data !! key = Some new_row →
  recorded (changed_rows old_data new_data) key col =
    old_row !! col ≫= column_diff new_row col.
Proof.
  intros Ho Hn. unfold recorded. rewrite changed_rows_lookup, Ho. simpl.
  unfold key_diffs. rewrite Hn. simpl. rewrite <- row_diffs_lookup.
  case_decide as Hd; [done|]. simpl.
  by rewrite Hd, lookup_empty.
Qed.
End differ.

Section for_each_list.
Context {A S : Type}.
Implicit Types (body : A → S → result S) (xs ys : list A) (s : S).

Lemma for_each_app body xs ys s :
  for_each (xs ++ ys) body s = s' ← for_each xs body s; for_each ys body s'.
Proof.
  revert s. induction xs as [|x xs IH]; intros s; [done|]. simpl.
  destruct (body x s) as [s1|e]; simpl; [apply IH|done].
Qed.

(** An iteration that leaves the state alone may be dropped. *)
Lemma for_each_skip body xs x ys s :
  (∀ s, body x s = Ok s) →
  for_each (xs ++ x :: ys) body s = for_each (xs ++ ys) body s.
Proof.
  intros Hx. rewrite !for_each_app. destruct (for_each xs body s); [simpl|done].
  by rewrite Hx.
Qed.
End for_each_list.

Section reader.
Implicit Types (fieldnames row keys : list string) (d : Row).

Lemma dict_zip_lookup_other fieldnames row d f :
  f ∉ fieldnames → dict_zip fieldnames row d !! Some f = d !! Some f.
Proof.
  revert row d. induction fieldnames as [|f' fieldnames IH]; intros row d Hf;
    [done|].
  destruct row as [|x row]; [done|]. simpl.
  rewrite IH by set_solver. apply lookup_insert_ne. set_solver.
Qed.

Lemma dict_zip_plain fieldnames row d :
  plain d → plain (dict_zip fieldnames row d).
Proof.
  revert row d. induction fieldnames as [|f' fieldnames IH]; intros row d Hd;
    [done|].
  destruct row as [|x row]; [done|]. simpl. apply IH.
  intros f l. rewrite lookup_insert. case_decide; [done|apply Hd].
Qed.

Lemma dict_zip_nil fieldnames d : dict_zip fieldnames [] d = d.
Proof. by destruct fieldnames. Qed.

Lemma pad_restval_lookup keys d f :
  pad_restval keys d !! Some f =
    if decide (f ∈ keys) then Some VNone else d !! Some f.
Proof.
  unfold pad_restval. revert d.
  induction keys as [|key keys IH]; intros d; cbn [foldl].
  - case_decide; [set_solver|done].
  - rewrite IH, lookup_insert.
    pose proof (elem_of_cons keys f key).
    repeat case_decide; naive_solver.
Qed.

Lemma pad_restval_plain keys d : plain d → plain (pad_restval keys d).
Proof.
  intros Hd f l. rewrite pad_restval_lookup. case_decide; [done|apply Hd].
Qed.

Lemma DictReader_row_plain fieldnames row :
  plain (DictReader_row fieldnames row).
Proof.
  assert (plain (dict_zip fieldnames row ∅)) as Hzip.
  { apply dict_zip_plain. intros f l. by rewrite lookup_empty. }
  unfold DictReader_row. repeat case_decide.
  - intros f l. rewrite lookup_insert_ne by done. apply Hzip.
  - by apply pad_restval_plain.
  - done.
Qed.

(** A name that is not in the header is not a column of the row. *)
Lemma DictReader_row_lookup_other fieldnames row f :
  f ∉ fieldnames → DictReader_row fieldnames row !! Some f = None.
Proof.
  intros Hf. unfold DictReader_row. repeat case_decide.
  - rewrite lookup_insert_ne by done. by rewrite dict_zip_lookup_other.
  - rewrite pad_restval_lookup, decide_False.
    + by rewrite dict_zip_lookup_other.
    + intros Hin. apply Hf. by apply (subseteq_drop (length row)).
  - by rewrite dict_zip_lookup_other.
Qed.

(** The columns a short record does not reach hold [None]. *)
Lemma DictReader_row_short fieldnames row f :
  length row < length fieldnames →
  f ∈ drop (length row) fieldnames →
  DictReader_row fieldnames row !! Some f = Some VNone.
Proof.
  intros Hlen Hf. unfold DictReader_row.
  rewrite decide_False by lia. rewrite decide_True by done.
  by rewrite pad_restval_lookup, decide_True.
Qed.

(** The blank record has no field, hence no key. *)
Lemma DictReader_row_blank fieldnames key_column key :
  ¬ has_key key_column key (DictReader_row fieldnames []).
Proof.
  unfold has_key, dict_get, DictReader_row. rewrite dict_zip_nil.
  destruct (decide (length fieldnames < length [])) as [Hlt|_];
    [simpl in Hlt; lia|].
  case_decide.
  - rewrite pad_restval_lookup. case_decide; [done|by rewrite lookup_empty].
  - by rewrite lookup_empty.
Qed.

Lemma DictReader_plain records : Forall plain (DictReader records).
Proof.
  destruct records as [|fieldnames records]; simpl; [done|].
  apply Forall_fmap, Forall_forall. intros row _. apply DictReader_row_plain.
Qed.

Lemma DictReader_split fieldnames pre r post :
  DictReader (fieldnames :: pre ++ r :: post) =
    (DictReader_row fieldnames <$> nonblank pre) ++
    (if decide (r ≠ []) then [DictReader_row fieldnames r] else []) ++
    (DictReader_row fieldnames <$> nonblank post).
Proof.
  unfold DictReader, nonblank. rewrite filter_app, filter_cons, fmap_app.
  f_equal. by case_decide.
Qed.
End reader.

Section loader.
Implicit Types (rows : list Row) (data : Snapshot) (key_column : string).

Lemma load_row_skip key_column row data :
  dict_get row (Some key_column) = VNone → load_row key_column row data = Ok data.
Proof. unfold load_row. by intros ->. Qed.

Lemma load_row_plain key_column row data :
  plain row →
  load_row key_column row data =
    Ok (match dict_get row (Some key_column) with
        | VStr key => <[key := row]> data
        | _ => data
        end).
Proof.
  intros Hrow. unfold load_row, dict_get.
  destruct (row !! Some key_column) as [[| |l]|] eqn:Hkey; simpl; try done.
  by destruct (Hrow key_column l).
Qed.

(** The loop of the loader never raises on the rows of a reader, and each
    key ends up with the last row stored under it. *)
Lemma load_rows_lookup key_column rows data :
  Forall plain rows →
  ∃ data', for_each rows (load_row key_column) data = Ok data' ∧
    ∀ key, data' !! key =
      from_option Some (data !! key) (last_with_key key_column key rows).
Proof.
  intros Hrows. revert data.
  induction Hrows as [|row rows Hrow _ IH]; intros data.
  { by exists data. }
  simpl. rewrite load_row_plain by done. simpl.
  edestruct IH as (data' & -> & Hdata'). exists data'. split; [done|].
  intros key. rewrite Hdata'. unfold last_with_key.
  rewrite filter_cons.
  destruct (decide (has_key key_column key row)) as [Hkey|Hkey];
    unfold has_key in Hkey.
  - rewrite Hkey, last_cons, lookup_insert_eq. by destruct (last _).
  - destruct (dict_get row (Some key_column)) as [key'| |l]; try done.
    rewrite lookup_insert_ne; [done|congruence].
Qed.

Lemma load_records_lookup records key_column :
  ∃ data, load_records records key_column = Ok data ∧
    ∀ key, data !! key = last_with_key key_column key (DictReader records).
Proof.
  destruct (load_rows_lookup key_column (DictReader records) ∅)
    as (data & Hdata & Hlookup); [apply DictReader_plain|].
  exists data. split; [done|]. intros key. rewrite Hlookup, lookup_empty.
  by destruct (last_with_key _ _ _).
Qed.

Lemma load_csv_to_dict_readable (fs : filesystem) file_path records key_column :
  fs !! file_path = Some (Readable records) →
  load_csv_to_dict fs file_path key_column = load_records records key_column.
Proof. intros Hfile. unfold load_csv_to_dict, open. by rewrite Hfile. Qed.

(** A record without a key can be taken out of the file. *)
Lemma load_records_skip fieldnames pre r post key_column :
  dict_get (DictReader_row fieldnames r) (Some key_column) = VNone →
  load_records (fieldnames :: pre ++ r :: post) key_column =
    load_records (fieldnames :: pre ++ post) key_column.
Proof.
  intros Hkey. unfold load_records. rewrite DictReader_split.
  assert (DictReader (fieldnames :: pre ++ post) =
    (DictReader_row fieldnames <$> nonblank pre) ++
    (DictReader_row fieldnames <$> nonblank post)) as ->.
  { unfold DictReader, nonblank. by rewrite filter_app, fmap_app. }
  case_decide; [|done]. simpl. apply for_each_skip.
  intros data. by apply load_row_skip.
Qed.

(** A record with a key is found under it unless a later one replaces it. *)
Lemma last_with_key_split fieldnames pre r post key_column key :
  has_key key_column key (DictReader_row fieldnames r) →
  last_with_key key_column key (DictReader (fieldnames :: pre ++ r :: post)) =
    from_option Some (Some (DictReader_row fieldnames r))
      (last_with_key key_column key (DictReader_row fieldnames <$> nonblank post)).
Proof.
  intros Hkey. rewrite DictReader_split. rewrite decide_True.
  - unfold last_with_key. rewrite !filter_app, last_app.
    rewrite filter_cons_True, filter_nil by done. simpl. rewrite last_cons.
    by destruct (last (filter _ (_ <$> nonblank post))).
  - intros ->. by apply DictReader_row_blank in Hkey.
Qed.

Lemma last_with_key_None key_column key rows :
  (∀ row, row ∈ rows → ¬ has_key key_column key row) →
  last_with_key key_column key rows = None.
Proof.
  intros Hrows. unfold last_with_key. apply last_None.
  destruct (filter _ _) as [|row rows'] eqn:Hfilter; [done|].
  assert (row ∈ filter (has_key key_column key) rows) as Hrow
    by (rewrite Hfilter; left).
  apply list_elem_of_filter in Hrow as [Hkey Hrow]. by destruct (Hrows row).
Qed.

Lemma last_with_key_is_Some key_column key rows row :
  row ∈ rows → has_key key_column key row →
  is_Some (last_with_key key_column key rows).
Proof.
  intros Hrow Hkey. unfold last_with_key. apply last_is_Some.
  intros Hnil. by eapply filter_nil_not_elem_of.
Qed.

(** A record with a key is not blank, so the reader yields its row. *)
Lemma DictReader_elem_of fieldnames records r key_column key :
  r ∈ records → has_key key_column key (DictReader_row fieldnames r) →
  DictReader_row fieldnames r ∈ DictReader (fieldnames :: records).
Proof.
  intros Hr Hkey. simpl. apply list_elem_of_fmap_2, list_elem_of_filter.
  split; [|done]. intros ->. by apply DictReader_row_blank in Hkey.
Qed.

Lemma nonblank_rows_elem_of fieldnames records row :
  row ∈ DictReader_row fieldnames <$> nonblank records →
  ∃ r, row = DictReader_row fieldnames r ∧ r ∈ records.
Proof.
  intros (r & -> & [_ Hr]%list_elem_of_filter)%list_elem_of_fmap. eauto.
Qed.
End loader.

(** The end-to-end scenario: [1] is removed, [3] is added, and the status
    of [2] goes from [open] to [closed]. *)
Example compare_old_new :
  (old_data ← load_csv_to_dict fs0 "logs/a/old.csv" "id";
   new_data ← load_csv_to_dict fs0 "logs/a/new.csv" "id";
   compare_dicts old_data new_data) =
  Ok ({["3"]}, {["1"]},
      {[ "2" := {[ Some "status" := (VStr "open", VStr "closed") ]} ]}).
Proof. vm_compute. reflexivity. Qed.

Example load_short_file :
  load_records short_file "id" = Ok short_data
  ∧ load_records narrow_file "id" = Ok narrow_data.
Proof. split; vm_compute; reflexivity. Qed.

Section differ_properties.
Implicit Types (old_data new_data : Snapshot) (old_row new_row : Row).

(** C1. For every pair of snapshots, [compare_dicts] returns, as [added],
    the keys of the new snapshot that are not keys of the old one, and as
    [removed] the keys of the old snapshot that are not keys of the new
    one. *)
Theorem compare_dicts_added_removed old_data new_data :
  ∃ added removed changed,
    compare_dicts old_data new_data = Ok (added, removed, changed) ∧
    added = dom new_data ∖ dom old_data ∧
    removed = dom old_data ∖ dom new_data ∧
    (∀ key, key ∈ added ↔ is_Some (new_data !! key) ∧ old_data !! key = None) ∧
    (∀ key, key ∈ removed ↔ is_Some (old_data !! key) ∧ new_data !! key = None).
Proof.
  eexists _, _, _. split; [apply compare_dicts_ok|].
  split_and!; [done|done|..]; intros key;
    by rewrite elem_of_difference, elem_of_dom, not_elem_of_dom.
Qed.

(** C8. For all snapshots the result of [compare_dicts] obeys the laws of
    set algebra: no key is both added and removed, and the added keys,
    the removed keys and the common keys together are exactly the keys of
    either snapshot. *)
Theorem compare_dicts_set_algebra old_data new_data :
  ∃ added removed changed,
    compare_dicts old_data new_data = Ok (added, removed, changed) ∧
    added ∩ removed = ∅ ∧
    added ∪ removed ∪ (dom old_data ∩ dom new_data) =
      dom old_data ∪ dom new_data.
Proof.
  eexists _, _, _. split; [apply compare_dicts_ok|]. split.
  - set_solver.
  - apply set_eq. intros key.
    destruct (decide (key ∈ dom old_data)), (decide (key ∈ dom new_data));
      set_solver.
Qed.

(** C9. [compare_dicts] is total: whatever the columns of the rows of the
    two snapshots, it returns a result and raises nothing; the lookup in
    the new row, [dict_get], yields the absent value for a column the new
    row does not have. *)
Theorem compare_dicts_total old_data new_data :
  (∃ res, compare_dicts old_data new_data = Ok res) ∧
  (∀ e, compare_dicts old_data new_data ≠ Raise e) ∧
  (∀ new_row col, new_row !! col = None → dict_get new_row col = VNone).
Proof.
  rewrite compare_dicts_ok. split_and!; [by eexists|done|].
  intros new_row col Hcol. unfold dict_get. by rewrite Hcol.
Qed.

(** C3. Every key of [changed] is a key of both snapshots and has at least
    one column of its old row whose value differs from what the new row
    gives for it; a common key without such a column is not in [changed]
    at all, and no key is mapped to an empty dictionary. *)
Theorem changed_key_invariant old_data new_data :
  ∃ added removed changed,
    compare_dicts old_data new_data = Ok (added, removed, changed) ∧
    dom changed ⊆ dom old_data ∩ dom new_data ∧
    (∀ key diffs, changed !! key = Some diffs →
      diffs ≠ ∅ ∧
      ∃ old_row new_row col old_value,
        old_data !! key = Some old_row ∧ new_data !! key = Some new_row ∧
        old_row !! col = Some old_value ∧
        old_value ≠ dict_get new_row col) ∧
    (∀ key old_row new_row,
      old_data !! key = Some old_row → new_data !! key = Some new_row →
      (∀ col old_value,
        old_row !! col = Some old_value → old_value = dict_get new_row col) →
      changed !! key = None).
Proof.
  eexists _, _, _. split; [apply compare_dicts_ok|]. split_and!.
  - intros key [diffs Hd]%elem_of_dom.
    apply changed_rows_Some in Hd as (old_row & new_row & Ho & Hn & _).
    apply elem_of_intersection. split; apply elem_of_dom; eauto.
  - intros key diffs (old_row & new_row & Ho & Hn & -> & Hne)%changed_rows_Some.
    split; [done|].
    apply map_choose in Hne as (col & p & Hp).
    rewrite row_diffs_lookup in Hp.
    destruct (old_row !! col) as [old_value|] eqn:Hcol; [simpl in Hp|done].
    unfold column_diff in Hp. case_decide; [|done].
    by exists old_row, new_row, col, old_value.
  - intros key old_row new_row Ho Hn Hsame.
    destruct (changed_rows old_data new_data !! key) as [diffs|] eqn:Hd; [|done].
    apply changed_rows_Some in Hd as (old_row' & new_row' & Ho' & Hn' & -> & Hne).
    simplify_eq. exfalso. apply Hne. apply map_eq. intros col.
    rewrite row_diffs_lookup, lookup_empty.
    destruct (old_row !! col) as [old_value|] eqn:Hcol; [simpl|done].
    unfold column_diff. rewrite decide_False; [done|].
    intros Hneq. apply Hneq. by apply Hsame.
Qed.

(** C2, as the code has it. For a key of both snapshots the comparison is
    driven by the columns of the old row only: each is compared with what
    the new row gives for it, strings by exact equality; a differing column
    is recorded with the pair of the old and the new value, an equal one is
    not recorded; a column the new row lacks is recorded with the old value
    and the absent value whenever the old value is not itself the absent
    value; and a column the old row does not have is never recorded. *)
Theorem changed_entry_by_old_columns old_data new_data key old_row new_row :
  old_data !! key = Some old_row →
  new_data !! key = Some new_row →
  ∃ added removed changed,
    compare_dicts old_data new_data = Ok (added, removed, changed) ∧
    (∀ col old_value, old_row !! col = Some old_value →
      old_value ≠ dict_get new_row col →
      recorded changed key col = Some (old_value, dict_get new_row col)) ∧
    (∀ col old_value, old_row !! col = Some old_value →
      old_value = dict_get new_row col →
      recorded changed key col = None) ∧
    (∀ col s s', old_row !! col = Some (VStr s) →
      new_row !! col = Some (VStr s') →
      (recorded changed key col = None ↔ s = s')) ∧
    (∀ col old_value, old_row !! col = Some old_value →
      new_row !! col = None → old_value ≠ VNone →
      recorded changed key col = Some (old_value, VNone)) ∧
    (∀ col, old_row !! col = None → recorded changed key col = None).
Proof.
  intros Ho Hn. eexists _, _, _. split; [apply compare_dicts_ok|].
  split_and!.
  - intros col v Hcol Hne.
    rewrite (recorded_changed_rows _ _ _ _ _ _ Ho Hn), Hcol. simpl.
    unfold column_diff. by rewrite decide_True.
  - intros col v Hcol Heq.
    rewrite (recorded_changed_rows _ _ _ _ _ _ Ho Hn), Hcol. simpl.
    unfold column_diff. rewrite decide_False; [done|]. by intros [].
  - intros col s s' Hcol Hcol'.
    rewrite (recorded_changed_rows _ _ _ _ _ _ Ho Hn), Hcol. simpl.
    unfold column_diff, dict_get. rewrite Hcol'. simpl.
    case_decide as Hd; split; try done.
    + intros ->. by destruct Hd.
    + intros _. congruence.
  - intros col v Hcol Hcol' Hne.
    rewrite (recorded_changed_rows _ _ _ _ _ _ Ho Hn), Hcol. simpl.
    unfold column_diff, dict_get. rewrite Hcol'. simpl.
    by rewrite decide_True.
  - intros col Hcol.
    by rewrite (recorded_changed_rows _ _ _ _ _ _ Ho Hn), Hcol.
Qed.

(** On the absent-column scenario: column [b], which the new row lacks, is
    recorded with the absent value even though its old value is the empty
    string; column [a] differs by a trailing space; column [c], which only
    the new row has, is not recorded. *)
Lemma changed_entry_by_old_columns_witness :
  ∃ changed,
    compare_dicts wide_data shrunk_data = Ok (∅, ∅, changed) ∧
    recorded changed "k" (Some "b") = Some (VStr "", VNone) ∧
    recorded changed "k" (Some "a") = Some (VStr "1", VStr "1 ") ∧
    recorded changed "k" (Some "id") = None ∧
    recorded changed "k" (Some "c") = None.
Proof.
  destruct (changed_entry_by_old_columns wide_data shrunk_data "k"
    {[ Some "id" := VStr "k"; Some "a" := VStr "1"; Some "b" := VStr "" ]}
    {[ Some "id" := VStr "k"; Some "a" := VStr "1 "; Some "c" := VStr "new" ]}
    eq_refl eq_refl)
    as (added & removed & changed & Hcmp & Hdiff & Hsame & _ & Habsent & Hnew).
  exists changed. split_and!.
  - rewrite Hcmp. rewrite compare_dicts_ok in Hcmp.
    injection Hcmp as <- <- _. vm_compute. reflexivity.
  - apply Habsent; [reflexivity|reflexivity|discriminate].
  - apply (Hdiff (Some "a") (VStr "1")); [reflexivity|vm_compute; discriminate].
  - apply (Hsame (Some "id") (VStr "k")); reflexivity.
  - apply Hnew. reflexivity.
Defined.

(** C2, as stated, fails: the old file has a record too short to reach
    column [a], the new file has no column [a]; the old value and the new
    value are both the absent value, and nothing is recorded. *)
Lemma absent_column_not_recorded :
  load_records short_file "id" = Ok short_data ∧
  load_records narrow_file "id" = Ok narrow_data ∧
  compare_dicts short_data narrow_data = Ok (∅, ∅, ∅) ∧
  ¬ absent_column_recorded short_data narrow_data.
Proof.
  split_and!; [vm_compute; reflexivity..|].
  intros Hrec.
  destruct (Hrec "5" {[ Some "id" := VStr "5"; Some "a" := VNone ]}
              {[ Some "id" := VStr "5" ]} (Some "a") VNone
              eq_refl eq_refl eq_refl eq_refl)
    as (added & removed & changed & diffs & Hcmp & Hkey & _).
  vm_compute in Hcmp. injection Hcmp as _ _ <-. discriminate Hkey.
Qed.
End differ_properties.

Section loader_properties.
Implicit Types (fs : filesystem) (file_path key_column : string).
Implicit Types (fieldnames r : list string) (pre post : list (list string)).

(** C7. When the path does not exist or cannot be read, the loader fails
    with an error of the [NotFound] kind, the one [open] raised, which
    reaches the caller as it is: there is no second attempt and no
    snapshot. *)
Theorem load_not_found fs file_path key_column :
  fs !! file_path = None ∨ fs !! file_path = Some Unreadable →
  ∃ e,
    load_csv_to_dict fs file_path key_column = Raise e ∧
    open fs file_path = Raise e ∧
    NotFound e ∧
    (fs !! file_path = None → e = FileNotFoundError) ∧
    (∀ data, load_csv_to_dict fs file_path key_column ≠ Ok data).
Proof.
  unfold load_csv_to_dict, open, NotFound.
  intros [-> | ->]; eexists; split_and!; simpl; eauto; done.
Qed.

Lemma load_not_found_witness :
  load_csv_to_dict fs0 "logs/a/none.csv" "id" = Raise FileNotFoundError.
Proof.
  destruct (load_not_found fs0 "logs/a/none.csv" "id")
    as (e & Hload & _ & _ & He & _); [left; reflexivity|].
  rewrite Hload. f_equal. apply He. reflexivity.
Defined.

(** C6. When several records of a file have the same key-column value, the
    snapshot holds, under that key, the row of the last of them in file
    order; and the snapshot has one entry per key. *)
Theorem last_write_wins fs file_path key_column fieldnames pre r post key :
  fs !! file_path = Some (Readable (fieldnames :: pre ++ r :: post)) →
  has_key key_column key (DictReader_row fieldnames r) →
  (∀ r', r' ∈ post → ¬ has_key key_column key (DictReader_row fieldnames r')) →
  ∃ data,
    load_csv_to_dict fs file_path key_column = Ok data ∧
    data !! key = Some (DictReader_row fieldnames r) ∧
    NoDup (map_to_list data).*1.
Proof.
  intros Hfile Hkey Hpost.
  rewrite (load_csv_to_dict_readable _ _ _ _ Hfile).
  destruct (load_records_lookup (fieldnames :: pre ++ r :: post) key_column)
    as (data & -> & Hdata).
  exists data. split_and!; [done| |apply NoDup_fst_map_to_list].
  rewrite Hdata, last_with_key_split by done.
  rewrite last_with_key_None; [done|].
  intros row (r' & -> & Hr')%nonblank_rows_elem_of. by apply Hpost.
Qed.

Lemma last_write_wins_witness :
  ∃ data,
    load_csv_to_dict fs1 "logs/b/dup.csv" "id" = Ok data ∧
    data !! "7" = Some {[ Some "id" := VStr "7"; Some "v" := VStr "b" ]}.
Proof.
  destruct (last_write_wins fs1 "logs/b/dup.csv" "id" ["id"; "v"]
              [["7"; "a"]; ["8"; "x"]] ["7"; "b"] [["9"; "z"]] "7")
    as (data & Hload & Hrow & _).
  - reflexivity.
  - vm_compute. reflexivity.
  - intros r' ->%list_elem_of_singleton. vm_compute. discriminate.
  - exists data. split; [done|]. rewrite Hrow. vm_compute. reflexivity.
Defined.

(** C4, as the code has it. A record whose key-column value is absent is
    skipped: the load does not fail and the snapshot is the one of the file
    without the record, so its size does not count it. A record whose
    key-column value is the empty string is not skipped: the snapshot has
    an entry under the empty key. *)
Theorem load_skips_absent_key fs file_path key_column fieldnames pre r post :
  fs !! file_path = Some (Readable (fieldnames :: pre ++ r :: post)) →
  ∃ data,
    load_csv_to_dict fs file_path key_column = Ok data ∧
    (dict_get (DictReader_row fieldnames r) (Some key_column) = VNone →
      load_records (fieldnames :: pre ++ post) key_column = Ok data) ∧
    (dict_get (DictReader_row fieldnames r) (Some key_column) = VStr "" →
      is_Some (data !! "")).
Proof.
  intros Hfile. rewrite (load_csv_to_dict_readable _ _ _ _ Hfile).
  destruct (load_records_lookup (fieldnames :: pre ++ r :: post) key_column)
    as (data & Hload & Hdata).
  exists data. split_and!; [done| |].
  - intros Hkey. by rewrite <- (load_records_skip _ _ r).
  - intros Hkey. rewrite Hdata.
    apply (last_with_key_is_Some _ _ _ (DictReader_row fieldnames r)); [|done].
    apply (DictReader_elem_of _ _ _ key_column ""); [|done].
    apply elem_of_app. right. left.
Qed.

Lemma load_skips_absent_key_witness :
  load_csv_to_dict fs1 "logs/b/keyless.csv" "id" =
    Ok {[ "2" := {[ Some "a" := VStr "y"; Some "id" := VStr "2" ]} ]}.
Proof.
  destruct (load_skips_absent_key fs1 "logs/b/keyless.csv" "id" ["a"; "id"]
              [] ["x"] [["y"; "2"]] eq_refl)
    as (data & Hload & Hskip & _).
  rewrite Hload. rewrite <- Hskip by (vm_compute; reflexivity).
  vm_compute. reflexivity.
Defined.

(** C4, as stated, fails: the record whose key field is empty is stored
    under the empty key, and the snapshot has two entries, not one. *)
Lemma empty_key_not_skipped :
  dict_get (DictReader_row ["id"; "a"] [""; "x"]) (Some "id") = VStr "" ∧
  load_csv_to_dict fs1 "logs/b/emptykey.csv" "id" =
    Ok {[ "" := {[ Some "id" := VStr ""; Some "a" := VStr "x" ]};
          "1" := {[ Some "id" := VStr "1"; Some "a" := VStr "y" ]} ]} ∧
  ¬ absent_or_empty_key_skipped ["id"; "a"] [] [""; "x"] [["1"; "y"]] "id".
Proof.
  split_and!; [vm_compute; reflexivity..|].
  intros Hskip. unfold absent_or_empty_key_skipped in Hskip.
  assert (load_records empty_key_file "id" =
          load_records [["id"; "a"]; ["1"; "y"]] "id") as Heq.
  { apply Hskip. right. vm_compute. reflexivity. }
  vm_compute in Heq. discriminate Heq.
Qed.

(** C5, as the code has it. The loader has no error for the three cases
    of malformed input: when the file is opened and read as a sequence of
    records, it returns a snapshot. The snapshot is empty when the file has
    no header or its header lacks the key column. A record with another
    number of fields than the header is loaded like the others: a short
    record holds the absent value in the columns it does not reach, a long
    record keeps its surplus fields as a list under the absent column
    name, and if the record has a key the snapshot has an entry under that
    key, which is the row of the record unless a later record has the
    same key. *)
Theorem load_accepts_malformed_input fs file_path key_column records :
  fs !! file_path = Some (Readable records) →
  ∃ data,
    load_csv_to_dict fs file_path key_column = Ok data ∧
    (records = [] → data = ∅) ∧
    (∀ fieldnames records',
      records = fieldnames :: records' → key_column ∉ fieldnames → data = ∅) ∧
    (∀ fieldnames pre r post,
      records = fieldnames :: pre ++ r :: post →
      length r ≠ length fieldnames →
      (∀ f, length r < length fieldnames →
        f ∈ drop (length r) fieldnames →
        DictReader_row fieldnames r !! Some f = Some VNone) ∧
      (length fieldnames < length r →
        DictReader_row fieldnames r !! None =
          Some (VList (drop (length fieldnames) r))) ∧
      (∀ key,
        has_key key_column key (DictReader_row fieldnames r) →
        is_Some (data !! key) ∧
        ((∀ r', r' ∈ post →
            ¬ has_key key_column key (DictReader_row fieldnames r')) →
          data !! key = Some (DictReader_row fieldnames r)))).
Proof.
  intros Hfile. rewrite (load_csv_to_dict_readable _ _ _ _ Hfile).
  destruct (load_records_lookup records key_column) as (data & Hload & Hdata).
  exists data. split_and!; [done|..].
  - intros ->. apply map_empty. intros key. by rewrite Hdata.
  - intros fieldnames records' -> Hcol. apply map_empty. intros key.
    rewrite Hdata. apply last_with_key_None.
    intros row (r & -> & _)%nonblank_rows_elem_of.
    unfold has_key, dict_get.
    by rewrite DictReader_row_lookup_other.
  - intros fieldnames pre r post -> _. split_and!.
    + intros f Hlen Hf. by apply DictReader_row_short.
    + intros Hlen. unfold DictReader_row. rewrite decide_True by done.
      apply lookup_insert_eq.
    + intros key Hkey. rewrite Hdata. split.
      * apply (last_with_key_is_Some _ _ _ (DictReader_row fieldnames r));
          [|done].
        apply (DictReader_elem_of _ _ _ key_column key); [|done].
        apply elem_of_app. right. left.
      * intros Hpost. rewrite last_with_key_split by done.
        rewrite last_with_key_None; [done|].
        intros row (r' & -> & Hr')%nonblank_rows_elem_of. by apply Hpost.
Qed.

Lemma load_accepts_malformed_input_witness :
  ∃ data,
    load_csv_to_dict fs1 "logs/b/ragged.csv" "id" = Ok data ∧
    DictReader_row ["id"; "a"] ["1"] !! Some "a" = Some VNone ∧
    DictReader_row ["id"; "a"] ["2"; "x"; "y"] !! None = Some (VList ["y"]) ∧
    is_Some (data !! "1") ∧
    data !! "2" = Some (DictReader_row ["id"; "a"] ["2"; "x"; "y"]).
Proof.
  destruct (load_accepts_malformed_input fs1 "logs/b/ragged.csv" "id"
              ragged_file eq_refl) as (data & Hload & _ & _ & Hrec).
  destruct (Hrec ["id"; "a"] [] ["1"] [["2"; "x"; "y"]])
    as (Hshort & _ & Hone); [reflexivity|simpl; lia|].
  destruct (Hrec ["id"; "a"] [["1"]] ["2"; "x"; "y"] [])
    as (_ & Hlong & Htwo); [reflexivity|simpl; lia|].
  exists data. split_and!; [done|..].
  - apply Hshort; [simpl; lia|]. simpl. left.
  - apply Hlong. simpl. lia.
  - apply (Hone "1"). vm_compute. reflexivity.
  - apply (Htwo "2"); [vm_compute; reflexivity|].
    intros r' Hr'. by apply elem_of_nil in Hr'.
Defined.

(** C5, as stated, fails: a file without a header, a file whose header has
    no key column and a file whose records are shorter and longer than the
    header are all malformed, and each is loaded without an error. *)
Lemma malformed_input_loaded :
  load_csv_to_dict fs1 "logs/b/empty.csv" "id" = Ok ∅ ∧
  load_csv_to_dict fs1 "logs/b/nokey.csv" "id" = Ok ∅ ∧
  load_csv_to_dict fs1 "logs/b/ragged.csv" "id" =
    Ok {[ "1" := {[ Some "id" := VStr "1"; Some "a" := VNone ]};
          "2" := {[ Some "id" := VStr "2"; Some "a" := VStr "x";
                    None := VList ["y"] ]} ]} ∧
  ¬ malformed_input_fails fs1 "logs/b/empty.csv" "id" ∧
  ¬ malformed_input_fails fs1 "logs/b/nokey.csv" "id" ∧
  ¬ malformed_input_fails fs1 "logs/b/ragged.csv" "id".
Proof.
  split_and!; [vm_compute; reflexivity..| | |].
  - intros Hfails. destruct (Hfails [] eq_refl I) as [e He].
    vm_compute in He. discriminate He.
  - intros Hfails. destruct (Hfails [["name"]; ["x"]] eq_refl) as [e He].
    { left. intros Hin. vm_compute in Hin. by apply list_elem_of_singleton in Hin. }
    vm_compute in He. discriminate He.
  - intros Hfails. destruct (Hfails ragged_file eq_refl) as [e He].
    { right. exists ["1"]. split; [left|simpl; lia]. }
    vm_compute in He. discriminate He.
Qed.

(** C10. A record with fewer fields than the header does not abort the
    load. The columns it does not reach hold the absent value in its row;
    if the key column is one of them, the key is absent and the record is
    skipped; and the rest of the file is loaded: every key holds the last
    row the reader yields for it, and every later record with a key has an
    entry. *)
Theorem load_pads_short_record fs file_path key_column fieldnames pre r post :
  fs !! file_path = Some (Readable (fieldnames :: pre ++ r :: post)) →
  length r < length fieldnames →
  ∃ data,
    load_csv_to_dict fs file_path key_column = Ok data ∧
    (∀ f, f ∈ drop (length r) fieldnames →
      DictReader_row fieldnames r !! Some f = Some VNone) ∧
    (key_column ∈ drop (length r) fieldnames →
      dict_get (DictReader_row fieldnames r) (Some key_column) = VNone ∧
      load_records (fieldnames :: pre ++ post) key_column = Ok data) ∧
    (∀ key, data !! key =
      last_with_key key_column key
        (DictReader (fieldnames :: pre ++ r :: post))) ∧
    (∀ r' key, r' ∈ post →
      has_key key_column key (DictReader_row fieldnames r') →
      is_Some (data !! key)).
Proof.
  intros Hfile Hlen. rewrite (load_csv_to_dict_readable _ _ _ _ Hfile).
  destruct (load_records_lookup (fieldnames :: pre ++ r :: post) key_column)
    as (data & Hload & Hdata).
  exists data. split_and!; [done| | |done|].
  - intros f Hf. by apply DictReader_row_short.
  - intros Hkey.
    assert (dict_get (DictReader_row fieldnames r) (Some key_column) = VNone)
      as Hnone by (unfold dict_get; by rewrite DictReader_row_short).
    split; [done|]. by rewrite <- (load_records_skip _ _ r).
  - intros r' key Hr' Hkey. rewrite Hdata.
    apply (last_with_key_is_Some _ _ _ (DictReader_row fieldnames r')); [|done].
    apply (DictReader_elem_of _ _ _ key_column key); [|done].
    apply elem_of_app. right. by right.
Qed.

Lemma load_pads_short_record_witness :
  DictReader_row ["a"; "id"] ["x"] =
    {[ Some "a" := VStr "x"; Some "id" := VNone ]} ∧
  load_csv_to_dict fs1 "logs/b/keyless.csv" "id" =
    Ok {[ "2" := {[ Some "a" := VStr "y"; Some "id" := VStr "2" ]} ]}.
Proof.
  destruct (load_pads_short_record fs1 "logs/b/keyless.csv" "id" ["a"; "id"]
              [] ["x"] [["y"; "2"]] eq_refl)
    as (data & Hload & Hpad & Hskip & _); [simpl; lia|].
  split; [vm_compute; reflexivity|].
  destruct Hskip as [_ Hskip]; [vm_compute; left|].
  rewrite Hload, <- Hskip. vm_compute. reflexivity.
Defined.
End loader_properties.

(** ** Further properties of the reader, the loader and the differ *)

Section reader_rows.
Implicit Types (fieldnames row : list string) (d : Row).

Lemma dict_zip_lookup_None fieldnames row d :
  dict_zip fieldnames row d !! None = d !! None.
Proof.
  revert row d. induction fieldnames as [|f fieldnames IH]; intros row d; [done|].
  destruct row as [|x row]; [done|]. simpl. by rewrite IH, lookup_insert_ne.
Qed.

Lemma dict_zip_lookup_field fieldnames row d i f x :
  NoDup fieldnames → fieldnames !! i = Some f → row !! i = Some x →
  dict_zip fieldnames row d !! Some f = Some (VStr x).
Proof.
  revert row d i. induction fieldnames as [|f' fieldnames IH];
    intros row d i Hnodup Hf Hx; [done|].
  destruct row as [|x' row]; [done|].
  apply NoDup_cons in Hnodup as [Hf' Hnodup]. simpl.
  destruct i as [|i]; simpl in Hf, Hx.
  - simplify_eq. by rewrite dict_zip_lookup_other, lookup_insert_eq.
  - by apply (IH _ _ i).
Qed.

(** The columns of a zipped dictionary, when no field name is left over. *)
Lemma dict_zip_is_Some fieldnames row d col :
  (length fieldnames ≤ length row)%nat →
  is_Some (dict_zip fieldnames row d !! col) ↔
    is_Some (d !! col) ∨ ∃ f, col = Some f ∧ f ∈ fieldnames.
Proof.
  revert row d. induction fieldnames as [|f' fieldnames IH]; intros row d Hlen.
  - simpl. split; [by left|]. intros [?|(f & _ & Hf)]; [done|].
    by apply elem_of_nil in Hf.
  - destruct row as [|x row]; simpl in Hlen; [lia|]. simpl.
    rewrite IH by lia. rewrite lookup_insert. split.
    + intros [Hd|(f & -> & Hf)].
      * case_decide as Hcol; [|by left].
        right. exists f'. split; [done|left].
      * right. exists f. split; [done|by right].
    + intros [Hd|(f & -> & Hf)].
      * left. by case_decide.
      * apply elem_of_cons in Hf as [->|Hf].
        -- left. by rewrite decide_True.
        -- right. by exists f.
Qed.

Lemma dict_zip_strings fieldnames row d col v :
  dict_zip fieldnames row d !! col = Some v →
  d !! col = Some v ∨ ∃ s, v = VStr s.
Proof.
  revert row d. induction fieldnames as [|f' fieldnames IH]; intros row d;
    [by left|].
  destruct row as [|x row]; [by left|]. simpl.
  intros [Hd|?]%IH; [|by right].
  rewrite lookup_insert in Hd. case_decide; [|by left].
  right. exists x. congruence.
Qed.

Lemma NoDup_not_elem_of_drop {A} (l : list A) i n x :
  NoDup l → l !! i = Some x → i < n → x ∉ drop n l.
Proof.
  intros Hnodup Hi Hlt [j Hj]%list_elem_of_lookup.
  rewrite lookup_drop in Hj.
  pose proof (NoDup_lookup _ _ _ _ Hnodup Hi Hj). lia.
Qed.
End reader_rows.

Section more_properties.
Implicit Types (fs : filesystem) (file_path key_column : string).
Implicit Types (fieldnames r : list string) (data old_data new_data : Snapshot).

(** X1. Comparing a snapshot with itself reports nothing: no key is added,
    removed or changed. *)
Theorem compare_dicts_same data :
  compare_dicts data data = Ok (∅, ∅, ∅).
Proof.
  rewrite compare_dicts_ok. do 2 f_equal; [f_equal; set_solver|].
  apply map_empty. intros key. rewrite changed_rows_lookup.
  destruct (data !! key) as [row|] eqn:Hrow; [simpl|done].
  unfold key_diffs. rewrite Hrow. simpl. rewrite decide_False; [done|].
  intros Hne. apply Hne. apply map_empty. intros col.
  rewrite row_diffs_lookup.
  destruct (row !! col) as [v|] eqn:Hcol; [simpl|done].
  unfold column_diff, dict_get. rewrite Hcol. simpl.
  by rewrite decide_False by (by intros []).
Qed.

(** X2. Exchanging the two snapshots exchanges [added] and [removed]; and
    for a key whose two rows have the same columns, what is recorded for a
    column is the same pair, exchanged. *)
Theorem compare_dicts_swap old_data new_data :
  ∃ added removed changed changed',
    compare_dicts old_data new_data = Ok (added, removed, changed) ∧
    compare_dicts new_data old_data = Ok (removed, added, changed') ∧
    ∀ key old_row new_row col,
      old_data !! key = Some old_row → new_data !! key = Some new_row →
      dom old_row = dom new_row →
      recorded changed' key col = prod_swap <$> recorded changed key col.
Proof.
  eexists _, _, _, _. split_and!; [apply compare_dicts_ok..|].
  intros key old_row new_row col Ho Hn Hdom.
  rewrite (recorded_changed_rows _ _ _ _ _ _ Ho Hn).
  rewrite (recorded_changed_rows _ _ _ _ _ _ Hn Ho).
  assert (is_Some (old_row !! col) ↔ is_Some (new_row !! col)) as Hcol
    by (by rewrite <- !elem_of_dom, Hdom).
  unfold column_diff, dict_get.
  destruct (old_row !! col) as [v|] eqn:Hv, (new_row !! col) as [w|] eqn:Hw;
    simpl.
  - repeat case_decide; simplify_eq; done.
  - destruct Hcol as [[? [=]] _]. eauto.
  - destruct Hcol as [_ [? [=]]]. eauto.
  - done.
Qed.

(** X3. The reader's row for a record: with distinct field names, the
    column of the i-th field name holds the i-th field; the surplus fields
    of a record longer than the header are kept as a list under the column
    [None], which no other record has; and a name that is not in the header
    is not a column. *)
Theorem DictReader_row_lookup fieldnames r :
  (∀ i f x, NoDup fieldnames → fieldnames !! i = Some f → r !! i = Some x →
    DictReader_row fieldnames r !! Some f = Some (VStr x)) ∧
  (length fieldnames < length r →
    DictReader_row fieldnames r !! None =
      Some (VList (drop (length fieldnames) r))) ∧
  ((length r ≤ length fieldnames)%nat →
    DictReader_row fieldnames r !! None = None) ∧
  (∀ f, f ∉ fieldnames → DictReader_row fieldnames r !! Some f = None).
Proof.
  split_and!.
  - intros i f x Hnodup Hf Hx. unfold DictReader_row. repeat case_decide.
    + rewrite lookup_insert_ne by done. by apply (dict_zip_lookup_field _ _ _ i).
    + rewrite pad_restval_lookup, decide_False.
      * by apply (dict_zip_lookup_field _ _ _ i).
      * apply (NoDup_not_elem_of_drop _ i); [done..|]. by eapply lookup_lt_Some.
    + by apply (dict_zip_lookup_field _ _ _ i).
  - intros Hlen. unfold DictReader_row. rewrite decide_True by done.
    apply lookup_insert_eq.
  - intros Hlen. unfold DictReader_row. rewrite decide_False by lia.
    assert (∀ keys d, pad_restval keys d !! None = d !! None) as Hpad.
    { intros keys. unfold pad_restval.
      induction keys as [|k keys IH]; intros d; [done|]. simpl.
      by rewrite IH, lookup_insert_ne. }
    case_decide; [rewrite Hpad|]; by rewrite dict_zip_lookup_None.
  - intros f Hf. by apply DictReader_row_lookup_other.
Qed.

Lemma DictReader_row_lookup_witness :
  DictReader_row ["id"; "a"] ["2"; "x"; "y"] !! Some "a" = Some (VStr "x") ∧
  DictReader_row ["id"; "a"] ["2"; "x"; "y"] !! None = Some (VList ["y"]).
Proof.
  destruct (DictReader_row_lookup ["id"; "a"] ["2"; "x"; "y"])
    as (Hfield & Hlong & _ & _).
  split.
  - apply (Hfield 1); [|reflexivity..].
    apply (bool_decide_unpack _). vm_compute. exact I.
  - rewrite Hlong by (simpl; lia). reflexivity.
Defined.
Lemma load_rows_size key_column (rows : list Row) data data' :
  for_each rows (load_row key_column) data = Ok data' →
  (size data' ≤ size data + length rows)%nat.
Proof.
  revert data. induction rows as [|row rows IH]; intros data; simpl.
  { intros [= ->]. lia. }
  destruct (load_row key_column row data) as [data1|e] eqn:Hrow; simpl; [|done].
  intros Hrows%IH. unfold load_row in Hrow.
  destruct (dict_get row (Some key_column)) as [key| |l]; simplify_eq; [|lia].
  pose proof (map_size_insert key row data) as Hsize.
  destruct (data !! key); simpl in Hsize; lia.
Qed.

Lemma load_records_entry records key_column data key row :
  (∀ key, data !! key = last_with_key key_column key (DictReader records)) →
  data !! key = Some row →
  has_key key_column key row ∧ row ∈ DictReader records.
Proof.
  intros Hdata Hrow. rewrite Hdata in Hrow. unfold last_with_key in Hrow.
  by apply last_Some_elem_of, list_elem_of_filter in Hrow.
Qed.

(** X4. Every entry of a loaded snapshot is the row of a non-blank record
    of the file, stored under the value that row has in the key column. *)
Theorem load_entries_are_records fs file_path key_column records :
  fs !! file_path = Some (Readable records) →
  ∃ data,
    load_csv_to_dict fs file_path key_column = Ok data ∧
    ∀ key row, data !! key = Some row →
      dict_get row (Some key_column) = VStr key ∧
      ∃ fieldnames records' r,
        records = fieldnames :: records' ∧ r ∈ records' ∧ r ≠ [] ∧
        row = DictReader_row fieldnames r.
Proof.
  intros Hfile. rewrite (load_csv_to_dict_readable _ _ _ _ Hfile).
  destruct (load_records_lookup records key_column) as (data & Hload & Hdata).
  exists data. split; [done|]. intros key row Hrow.
  destruct (load_records_entry _ _ _ _ _ Hdata Hrow) as [Hkey Hin].
  split; [done|].
  destruct records as [|fieldnames records']; [by apply elem_of_nil in Hin|].
  apply list_elem_of_fmap in Hin as (r & -> & [Hr Hin]%list_elem_of_filter).
  by exists fieldnames, records', r.
Qed.

Lemma load_entries_are_records_witness :
  ∃ data,
    load_csv_to_dict fs1 "logs/b/dup.csv" "id" = Ok data ∧
    ∀ key row, data !! key = Some row → dict_get row (Some "id") = VStr key.
Proof.
  destruct (load_entries_are_records fs1 "logs/b/dup.csv" "id" dup_file eq_refl)
    as (data & Hload & Hrows).
  exists data. split; [done|]. intros key row Hrow.
  by destruct (Hrows key row Hrow).
Defined.

(** X5. The keys of a loaded snapshot are exactly the strings some record
    of the file has in the key column, and the snapshot has at most one
    entry per record after the header. *)
Theorem load_keys fs file_path key_column fieldnames (records' : list (list string)) :
  fs !! file_path = Some (Readable (fieldnames :: records')) →
  ∃ data,
    load_csv_to_dict fs file_path key_column = Ok data ∧
    (∀ key, key ∈ dom data ↔
      ∃ r, r ∈ records' ∧ has_key key_column key (DictReader_row fieldnames r)) ∧
    (size data ≤ length records')%nat.
Proof.
  intros Hfile. rewrite (load_csv_to_dict_readable _ _ _ _ Hfile).
  destruct (load_records_lookup (fieldnames :: records') key_column)
    as (data & Hload & Hdata).
  exists data. split_and!; [done| |].
  - intros key. rewrite elem_of_dom. split.
    + intros [row Hrow].
      destruct (load_records_entry _ _ _ _ _ Hdata Hrow) as [Hkey Hin].
      apply nonblank_rows_elem_of in Hin as (r & -> & Hr). eauto.
    + intros (r & Hr & Hkey). rewrite Hdata.
      apply (last_with_key_is_Some _ _ _ (DictReader_row fieldnames r)); [|done].
      by apply (DictReader_elem_of _ _ _ key_column key).
  - apply load_rows_size in Hload. rewrite map_size_empty in Hload.
    simpl in Hload. rewrite length_fmap in Hload.
    pose proof (length_filter (λ row : list string, row ≠ []) records').
    unfold nonblank in Hload. lia.
Qed.

Lemma load_keys_witness :
  ∃ data,
    load_csv_to_dict fs1 "logs/b/dup.csv" "id" = Ok data ∧
    "7" ∈ dom data ∧ (size data ≤ 4)%nat.
Proof.
  destruct (load_keys fs1 "logs/b/dup.csv" "id" ["id"; "v"]
              [["7"; "a"]; ["8"; "x"]; ["7"; "b"]; ["9"; "z"]] eq_refl)
    as (data & Hload & Hkeys & Hsize).
  exists data. split_and!; [done| |done].
  apply Hkeys. exists ["7"; "a"]. split; [left|vm_compute; reflexivity].
Defined.

(** X6. When every non-blank record has as many fields as the header, every
    row of the loaded snapshot has exactly the columns of the header and
    holds a string in each of them: no absent value and no list of surplus
    fields. *)
Theorem load_rectangular fs file_path key_column fieldnames
    (records' : list (list string)) :
  fs !! file_path = Some (Readable (fieldnames :: records')) →
  (∀ r, r ∈ records' → r ≠ [] → length r = length fieldnames) →
  ∃ data,
    load_csv_to_dict fs file_path key_column = Ok data ∧
    ∀ key row, data !! key = Some row →
      (∀ col, is_Some (row !! col) ↔ ∃ f, col = Some f ∧ f ∈ fieldnames) ∧
      (∀ col v, row !! col = Some v → ∃ s, v = VStr s).
Proof.
  intros Hfile Hrect. rewrite (load_csv_to_dict_readable _ _ _ _ Hfile).
  destruct (load_records_lookup (fieldnames :: records') key_column)
    as (data & Hload & Hdata).
  exists data. split; [done|]. intros key row Hrow.
  destruct (load_records_entry _ _ _ _ _ Hdata Hrow) as [_ Hin].
  apply list_elem_of_fmap in Hin as (r & -> & [Hr Hin]%list_elem_of_filter).
  specialize (Hrect r Hin Hr). unfold DictReader_row.
  rewrite !decide_False by lia. split.
  - intros col. rewrite dict_zip_is_Some by lia.
    rewrite lookup_empty. split; [|by right].
    intros [[? [=]]|?]; done.
  - intros col v [Hv|?]%dict_zip_strings; [|done].
    by rewrite lookup_empty in Hv.
Qed.

Lemma load_rectangular_witness :
  ∃ data,
    load_csv_to_dict fs0 "logs/a/old.csv" "id" = Ok data ∧
    ∀ key row, data !! key = Some row →
      ∃ s, row !! Some "status" = Some (VStr s).
Proof.
  destruct (load_rectangular fs0 "logs/a/old.csv" "id" ["id"; "status"]
              [["1"; "open"]; ["2"; "open"]] eq_refl)
    as (data & Hload & Hrows).
  { intros r Hr _. repeat (apply elem_of_cons in Hr as [->|Hr]; [done|]).
    by apply elem_of_nil in Hr. }
  exists data. split; [done|]. intros key row Hrow.
  destruct (Hrows key row Hrow) as [Hcols Hstr].
  destruct (proj2 (Hcols (Some "status"))) as [v Hv].
  { exists "status". split; [done|]. right. left. }
  destruct (Hstr _ _ Hv) as [s ->]. by exists s.
Defined.
End more_properties.

(** ** Properties of the file names *)

Example extract_prefix_and_type_digital :
  extract_prefix_and_type (code_points "2024-03-05_14-30_digital.csv") =
    (Some (code_points "2024-03-05_14-30"), Some (code_points "digital"))
  ∧ extract_prefix_and_type (code_points "2024-03-05_14-30_.csv") =
    (None, None)
  ∧ extract_prefix_and_type (code_points "2024-3-05_14-30_digital.csv") =
    (None, None)
  ∧ extract_prefix_and_type (code_points "2024-03-05_14-30_a.csv.CSV") =
    (None, None)
  ∧ extract_prefix_and_type (code_points "2024-03-05_14-30_a.csv.csv") =
    (Some (code_points "2024-03-05_14-30"), Some (code_points "a.csv"))
  ∧ file_starts_with_date (code_points "2024-03-05_14-30_notes.txt") = true
  ∧ file_starts_with_date (code_points "2024-03-05_14-30") = false
  ∧ dated_name_counter (code_points "2024-03-05_14-30") 12
      (code_points "digital.csv") =
    code_points "2024-03-05_14-30_12_digital.csv".
Proof. repeat split; vm_compute; reflexivity. Qed.

Section file_names.
Context `{Unicode}.
Implicit Types (s t rest filename : str) (pattern : list atom).

Lemma code_points_app (s t : string) :
  code_points (s +:+ t) = code_points s ++ code_points t.
Proof. induction s as [|c s IH]; [done|]. cbn. by rewrite <- IH. Qed.

#[global] Instance code_points_inj : Inj (=) (=) code_points.
Proof.
  intros s. induction s as [|c s IH]; intros [|c' s'] Heq; try done.
  cbn in Heq. injection Heq as Hc Hs. f_equal; [|by apply IH].
  by rewrite <- (ascii_N_embedding c), Hc, ascii_N_embedding.
Qed.

(** What a pattern matches is a prefix of the string, and is matched as a
    whole by the pattern. *)
Lemma match_atoms_Some pattern s m rest :
  match_atoms pattern s = Some (m, rest) →
  s = m ++ rest ∧ match_atoms pattern m = Some (m, []).
Proof.
  revert s m. induction pattern as [|a pattern IH]; intros s m; simpl.
  { by intros [= <- <-]. }
  destruct s as [|c s]; [done|].
  destruct (atom_matches a c) eqn:Hc; [|done].
  destruct (match_atoms pattern s) as [[m' rest']|] eqn:Hm; [|done].
  intros [= <- <-]. apply IH in Hm as [-> Hm]. simpl.
  by rewrite Hc, Hm.
Qed.

Lemma match_atoms_app pattern m rest :
  match_atoms pattern m = Some (m, []) →
  match_atoms pattern (m ++ rest) = Some (m, rest).
Proof.
  revert m. induction pattern as [|a pattern IH]; intros m; simpl.
  { intros ?; by simplify_eq. }
  destruct m as [|c m]; [done|]. simpl.
  destruct (atom_matches a c); [|done].
  destruct (match_atoms pattern m) as [[m' rest']|] eqn:Hm; [|done].
  intros ?; simplify_eq/=. by rewrite (IH _ Hm).
Qed.

(** A pattern in two parts matches what the first part matches, and then
    what the second matches. *)
Lemma match_atoms_app_pattern pattern pattern' s :
  match_atoms (pattern ++ pattern') s =
    match match_atoms pattern s with
    | Some (m, rest) => prod_map (app m) id <$> match_atoms pattern' rest
    | None => None
    end.
Proof.
  revert s. induction pattern as [|a pattern IH]; intros s; simpl.
  { by destruct (match_atoms pattern' s) as [[??]|]. }
  destruct s as [|c s]; [done|].
  destruct (atom_matches a c); [|done]. rewrite IH.
  destruct (match_atoms pattern s) as [[m rest]|]; [|done]. simpl.
  by destruct (match_atoms pattern' rest) as [[??]|].
Qed.

Lemma match_atoms_length pattern s m rest :
  match_atoms pattern s = Some (m, rest) → length m = length pattern.
Proof.
  revert s m. induction pattern as [|a pattern IH]; intros s m; simpl.
  { by intros [= <- <-]. }
  destruct s as [|c s]; [done|].
  destruct (atom_matches a c); [|done].
  destruct (match_atoms pattern s) as [[m' rest']|] eqn:Hm; [|done].
  intros [= <- <-]. simpl. f_equal. by eapply IH.
Qed.

Lemma match_log_type_cons c s :
  match_log_type (c :: s) =
    if (c =? newline)%N then None
    else if bool_decide (s = code_points ".csv")
            || bool_decide (s = code_points ".csv" ++ [newline])
    then Some [c]
    else cons c <$> match_log_type s.
Proof. reflexivity. Qed.

Lemma match_log_type_csv t :
  t ≠ [] → one_line t = true →
  match_log_type (t ++ code_points ".csv") = Some t.
Proof.
  induction t as [|c t IH]; [done|]. intros _.
  rewrite <- app_comm_cons, match_log_type_cons.
  cbn [one_line forallb]. destruct (c =? newline)%N; [done|].
  rewrite andb_true_l. intros Hline.
  destruct (decide (t = [])) as [->|Hne]; [done|].
  rewrite bool_decide_eq_false_2, bool_decide_eq_false_2.
  - cbn [orb]. by rewrite IH.
  - intros Heq. pose proof (f_equal length Heq) as Hlen.
    rewrite !length_app in Hlen. cbn in Hlen.
    destruct t as [|c' [|c'' t]]; [done| |cbn in Hlen; lia].
    by injection Heq.
  - intros Heq%(f_equal length).
    rewrite length_app in Heq. cbn in Heq. destruct t; [done|cbn in Heq; lia].
Qed.

Lemma match_log_type_csv_newline t :
  t ≠ [] → one_line t = true →
  match_log_type (t ++ code_points ".csv" ++ [newline]) = Some t.
Proof.
  induction t as [|c t IH]; [done|]. intros _.
  rewrite <- app_comm_cons, match_log_type_cons.
  cbn [one_line forallb]. destruct (c =? newline)%N; [done|].
  rewrite andb_true_l. intros Hline.
  destruct (decide (t = [])) as [->|Hne]; [done|].
  rewrite bool_decide_eq_false_2, bool_decide_eq_false_2.
  - cbn [orb]. by rewrite IH.
  - intros Heq%(f_equal length).
    rewrite length_app in Heq. cbn in Heq. destruct t; [done|cbn in Heq; lia].
  - intros Heq%(f_equal length).
    rewrite length_app in Heq. cbn in Heq. destruct t; [done|cbn in Heq; lia].
Qed.

Lemma match_log_type_Some s t :
  match_log_type s = Some t →
  t ≠ [] ∧ one_line t = true ∧
  (s = t ++ code_points ".csv" ∨ s = t ++ code_points ".csv" ++ [newline]).
Proof.
  revert t. induction s as [|c s IH]; intros t; [done|].
  rewrite match_log_type_cons.
  destruct (c =? newline)%N eqn:Hc; [done|].
  destruct (bool_decide (s = code_points ".csv")
            || bool_decide (s = code_points ".csv" ++ [newline])) eqn:Hs.
  - intros [= <-]. split; [done|]. split; [simpl; by rewrite Hc|].
    apply orb_true_iff in Hs as [->%bool_decide_eq_true| ->%bool_decide_eq_true];
      [by left|by right].
  - destruct (match_log_type s) as [t'|] eqn:Ht; [|done].
    intros [= <-]. destruct (IH t' eq_refl) as (_ & Hline & Hcsv).
    split; [done|]. split; [simpl; by rewrite Hc|].
    destruct Hcsv as [-> | ->]; [by left|by right].
Qed.

Lemma one_line_app s t : one_line (s ++ t) = one_line s && one_line t.
Proof. apply forallb_app. Qed.

Lemma pretty_N_go_one_line (x : N) (s : string) :
  one_line (code_points s) = true →
  one_line (code_points (pretty_N_go x s)) = true.
Proof.
  revert s. induction (N.lt_wf_0 x) as [x _ IH]; intros s Hs.
  assert (x = 0 ∨ 0 < x)%N as [->|?] by lia.
  - by rewrite pretty_N_go_0.
  - rewrite pretty_N_go_step by done. apply IH.
    { by apply N.div_lt. }
    cbn. rewrite andb_true_iff. split; [|done].
    unfold pretty_N_char. by repeat case_match.
Qed.

Lemma pretty_nat_one_line (n : nat) : one_line (code_points (pretty n)) = true.
Proof.
  unfold pretty, pretty_nat, pretty, pretty_N.
  case_decide; [done|]. by apply pretty_N_go_one_line.
Qed.

Lemma match_underscore rest :
  match_atoms [Lit "_"] (code_points "_" ++ rest) = Some (code_points "_", rest).
Proof. reflexivity. Qed.

Lemma match_underscore_Some s m rest :
  match_atoms [Lit "_"] s = Some (m, rest) → s = code_points "_" ++ rest.
Proof.
  intros Hm. destruct s as [|c s]; [done|].
  change (match_atoms [Lit "_"] (c :: s))
    with (if (c =? N_of_ascii "_")%N then Some ([c], s) else None) in Hm.
  destruct (N.eqb_spec c (N_of_ascii "_")) as [->|]; [|done].
  by simplify_eq.
Qed.

Lemma extract_prefix_and_type_csv date_time log_type :
  date_time_format date_time → log_type ≠ [] → one_line log_type = true →
  extract_prefix_and_type
    (date_time ++ code_points "_" ++ log_type ++ code_points ".csv") =
    (Some date_time, Some log_type).
Proof.
  intros Hdate Hne Hline. unfold extract_prefix_and_type.
  rewrite (match_atoms_app _ _ _ Hdate), match_underscore.
  by rewrite match_log_type_csv.
Qed.

Lemma extract_prefix_and_type_csv_newline date_time log_type :
  date_time_format date_time → log_type ≠ [] → one_line log_type = true →
  extract_prefix_and_type
    (date_time ++ code_points "_" ++ log_type ++ code_points ".csv"
       ++ [newline]) =
    (Some date_time, Some log_type).
Proof.
  intros Hdate Hne Hline. unfold extract_prefix_and_type.
  rewrite (match_atoms_app _ _ _ Hdate), match_underscore.
  by rewrite match_log_type_csv_newline.
Qed.

Lemma file_starts_with_date_app date_time rest :
  date_time_format date_time →
  file_starts_with_date (date_time ++ code_points "_" ++ rest) = true.
Proof.
  intros Hdate. unfold file_starts_with_date.
  by rewrite match_atoms_app_pattern, (match_atoms_app _ _ _ Hdate),
    match_underscore.
Qed.

Lemma extract_prefix_and_type_Some filename date_time log_type :
  extract_prefix_and_type filename = (Some date_time, Some log_type) →
  ∃ rest,
    match_atoms date_time_pattern filename =
      Some (date_time, code_points "_" ++ rest) ∧
    match_log_type rest = Some log_type.
Proof.
  unfold extract_prefix_and_type.
  destruct (match_atoms date_time_pattern filename)
    as [[date_time' rest]|]; [|done].
  destruct (match_atoms [Lit "_"] rest) as [[m rest']|] eqn:Hrest; [|done].
  apply match_underscore_Some in Hrest as ->.
  destruct (match_log_type rest') as [log_type'|] eqn:Hty; [|done].
  intros [= -> ->]. by exists rest'.
Qed.

(** The two results are both there or both missing. *)
Lemma extract_prefix_and_type_None filename :
  (extract_prefix_and_type filename).1 = None ↔
  (extract_prefix_and_type filename).2 = None.
Proof. unfold extract_prefix_and_type. by repeat case_match. Qed.

(** X7. [extract_prefix_and_type] returns a date and a log type exactly for
    the names made of a date, which the pattern
    [\d{4}-\d{2}-\d{2}_\d{2}-\d{2}] matches as a whole, an underscore, a
    log type that is not empty and has no line feed, and [.csv], possibly
    followed by one final line feed; the two results are then that date
    and that log type.  This holds whatever characters the interpreter
    takes for decimal digits. *)
Theorem extract_prefix_and_type_spec filename date_time log_type :
  extract_prefix_and_type filename = (Some date_time, Some log_type) ↔
  date_time_format date_time ∧ log_type ≠ [] ∧ one_line log_type = true ∧
  (filename = date_time ++ code_points "_" ++ log_type ++ code_points ".csv" ∨
   filename = date_time ++ code_points "_" ++ log_type ++ code_points ".csv"
                ++ [newline]).
Proof.
  split.
  - intros (rest & Hdate & Hty)%extract_prefix_and_type_Some.
    apply match_atoms_Some in Hdate as [-> Hdate].
    apply match_log_type_Some in Hty as (Hne & Hline & Hrest).
    split_and!; [done..|]. destruct Hrest as [-> | ->]; [by left|by right].
  - intros (Hdate & Hne & Hline & [-> | ->]).
    + by apply extract_prefix_and_type_csv.
    + by apply extract_prefix_and_type_csv_newline.
Qed.

(** X8. A name for which [extract_prefix_and_type] returns a date starts
    with a date for [file_starts_with_date]: the renaming pass leaves alone
    every file the two other passes recognise. *)
Theorem extract_prefix_starts_with_date filename :
  (extract_prefix_and_type filename).1 ≠ None →
  file_starts_with_date filename = true.
Proof.
  intros Hextract.
  destruct (extract_prefix_and_type filename) as [[date_time|] [log_type|]]
    eqn:Heq; try done.
  - apply extract_prefix_and_type_Some in Heq as (rest & Hdate & _).
    unfold file_starts_with_date.
    by rewrite match_atoms_app_pattern, Hdate, match_underscore.
  - unfold extract_prefix_and_type in Heq. by repeat case_match.
Qed.

(** X9. The names the renaming pass builds from a modification date in the
    format [YYYY-MM-DD_HH-MM] start with a date. When the original name is
    a stem followed by [.csv], the log type read from the new name is the
    stem; but when a collision adds a counter, the log type read from the
    new name is the counter, an underscore and the stem. *)
Theorem dated_name_log_type mod_date original_name counter :
  date_time_format mod_date →
  file_starts_with_date (dated_name mod_date original_name) = true ∧
  file_starts_with_date (dated_name_counter mod_date counter original_name)
    = true ∧
  ∀ stem, original_name = stem ++ code_points ".csv" → one_line stem = true →
    (stem ≠ [] →
      extract_prefix_and_type (dated_name mod_date original_name) =
        (Some mod_date, Some stem)) ∧
    extract_prefix_and_type
      (dated_name_counter mod_date counter original_name) =
        (Some mod_date,
         Some (code_points (pretty counter) ++ code_points "_" ++ stem)).
Proof.
  intros Hdate. unfold dated_name, dated_name_counter. split_and!.
  - by apply file_starts_with_date_app.
  - by apply file_starts_with_date_app.
  - intros stem -> Hline. split.
    + intros Hne. by apply extract_prefix_and_type_csv.
    + rewrite (app_assoc (code_points "_") stem).
      rewrite (app_assoc (code_points (pretty counter))).
      apply extract_prefix_and_type_csv; [done| |].
      * by destruct (code_points (pretty counter)).
      * by rewrite !one_line_app, pretty_nat_one_line, Hline.
Qed.
End file_names.

Lemma extract_prefix_starts_with_date_witness :
  file_starts_with_date (code_points "2024-03-05_14-30_digital.csv") = true.
Proof.
  apply extract_prefix_starts_with_date. vm_compute. discriminate.
Defined.

Lemma dated_name_log_type_witness :
  extract_prefix_and_type
    (dated_name_counter (code_points "2024-03-05_14-30") 1
       (code_points "digital.csv")) =
    (Some (code_points "2024-03-05_14-30"), Some (code_points "1_digital")).
Proof.
  destruct (dated_name_log_type (code_points "2024-03-05_14-30")
              (code_points "digital.csv") 1)
    as (_ & _ & Hstem); [vm_compute; reflexivity|].
  destruct (Hstem (code_points "digital")) as [_ Hcounter]; [reflexivity..|].
  rewrite Hcounter. vm_compute. reflexivity.
Defined.

(** The Arabic-Indic digits are decimal digits: a name dated in them is
    read as a dated name, by both functions. *)
Example extract_prefix_arabic_indic :
  let date_time : str :=
    [1634; 1632; 1634; 1636; 45; 1632; 1635; 45; 1632; 1637; 95;
     1633; 1636; 45; 1635; 1632]%N in
  extract_prefix_and_type (date_time ++ code_points "_digital.csv") =
    (Some date_time, Some (code_points "digital")) ∧
  file_starts_with_date (date_time ++ code_points "_digital.csv") = true.
Proof. split; vm_compute; reflexivity. Qed.

(** ** Properties of the selections of [main] *)

Section selections.
Context {A : Type}.
Implicit Types (l versions : list A) (i : Z).

Lemma py_index_nonneg l i :
  (0 ≤ i)%Z → py_index l i = l !! Z.to_nat i.
Proof. intros Hi. unfold py_index. by rewrite decide_True. Qed.

Lemma py_index_neg l i :
  (- Z.of_nat (length l) ≤ i < 0)%Z →
  py_index l i = l !! Z.to_nat (Z.of_nat (length l) + i).
Proof.
  intros Hi. unfold py_index.
  rewrite decide_False by lia. by rewrite decide_True by lia.
Qed.

Lemma py_index_is_Some l i :
  is_Some (py_index l i) ↔
  (- Z.of_nat (length l) ≤ i < Z.of_nat (length l))%Z.
Proof.
  unfold py_index. repeat case_decide; rewrite ?lookup_lt_is_Some;
    [lia|lia|]. split; [by intros [? [=]]|lia].
Qed.

(** X10. The two version numbers are accepted exactly when both lie between
    1 and the number of versions, and then select the versions at those
    positions, counted from 1: the check of [main] leaves no number
    through that would wrap around. *)
Theorem select_versions_spec versions (old_idx new_idx : Z) :
  (is_Some (select_versions versions old_idx new_idx) ↔
    (1 ≤ old_idx ≤ Z.of_nat (length versions))%Z ∧
    (1 ≤ new_idx ≤ Z.of_nat (length versions))%Z) ∧
  (∀ old_file new_file,
    select_versions versions old_idx new_idx = Some (old_file, new_file) →
    versions !! (Z.to_nat old_idx - 1) = Some old_file ∧
    versions !! (Z.to_nat new_idx - 1) = Some new_file).
Proof.
  unfold select_versions. case_decide as Hcheck.
  - split; [|done]. split; [by intros [? [=]]|lia].
  - assert (1 ≤ old_idx ≤ Z.of_nat (length versions))%Z as Hold by lia.
    assert (1 ≤ new_idx ≤ Z.of_nat (length versions))%Z as Hnew by lia.
    rewrite !py_index_nonneg by lia.
    replace (Z.to_nat (old_idx - 1)) with (Z.to_nat old_idx - 1) by lia.
    replace (Z.to_nat (new_idx - 1)) with (Z.to_nat new_idx - 1) by lia.
    destruct (lookup_lt_is_Some_2 versions (Z.to_nat old_idx - 1))
      as [old_file ->]; [lia|].
    destruct (lookup_lt_is_Some_2 versions (Z.to_nat new_idx - 1))
      as [new_file ->]; [lia|].
    simpl. split; [by split; [|eauto]|]. by intros ?? [= <- <-].
Qed.
End selections.

(** X11. The number of the log type has no such check. Every number from 1
    to the number of log types selects the log type at that position; but
    0 and the negative numbers down to 1 minus the number of log types are
    accepted too and select from the end of the list, 0 selecting the last
    log type; every other number is refused. *)
Theorem select_log_type_spec (log_types : list string) (choice : Z) :
  (is_Some (select_log_type log_types choice) ↔
    (1 - Z.of_nat (length log_types) ≤ choice ≤ Z.of_nat (length log_types))%Z) ∧
  ((1 ≤ choice)%Z →
    select_log_type log_types choice = log_types !! (Z.to_nat choice - 1)) ∧
  ((1 - Z.of_nat (length log_types) ≤ choice ≤ 0)%Z →
    select_log_type log_types choice =
      log_types !! (length log_types - 1 - Z.to_nat (- choice))) ∧
  (log_types ≠ [] → select_log_type log_types 0 = last log_types).
Proof.
  unfold select_log_type. split_and!.
  - rewrite py_index_is_Some. lia.
  - intros Hchoice. rewrite py_index_nonneg by lia. f_equal. lia.
  - intros Hchoice. rewrite py_index_neg by lia. f_equal. lia.
  - intros Hne. rewrite py_index_neg.
    + rewrite last_lookup. f_equal. lia.
    + destruct log_types; [done|]. simpl. lia.
Qed.

Lemma select_log_type_spec_witness :
  select_log_type ["analog"; "digital"; "serial"] 0 = Some "serial" ∧
  select_log_type ["analog"; "digital"; "serial"] (-2) = Some "analog" ∧
  select_log_type ["analog"; "digital"; "serial"] 2 = Some "digital".
Proof.
  destruct (select_log_type_spec ["analog"; "digital"; "serial"] 0)
    as (_ & _ & _ & Hlast).
  destruct (select_log_type_spec ["analog"; "digital"; "serial"] (-2))
    as (_ & _ & Hneg & _).
  destruct (select_log_type_spec ["analog"; "digital"; "serial"] 2)
    as (_ & Hpos & _ & _).
  split_and!.
  - by rewrite Hlast.
  - rewrite Hneg; [done|simpl; lia].
  - rewrite Hpos; [done|lia].
Defined.

(** ** Properties of the renaming pass *)

Example rename_logs0 :
  rename_files_with_date_prefix by_name logs0 =
    ({[ code_points "2024-03-05_14-30_1_digital.csv" :=
          File (code_points "2024-03-05_14-30") [["id"]; ["1"]];
        code_points "2024-03-05_14-30_digital.csv" :=
          File (code_points "2024-03-05_14-30") [["id"]];
        code_points "2024-01-02_08-00_notes.txt" :=
          File (code_points "2024-01-02_08-00") [];
        code_points "archive" := Dir ∅ ]}, None).
Proof. vm_compute. reflexivity. Qed.

(** A failure ends the pass where it happens, and the files listed after
    it keep their names; on a system without the limit the pass goes
    through. *)
Example rename_logs2 :
  elements (dom logs2) = [long_name; code_points "notes.txt"] ∧
  rename_files_with_date_prefix name_max logs2 = (logs2, Some (OSError 36)) ∧
  (rename_files_with_date_prefix by_name logs2).2 = None.
Proof. repeat split; vm_compute; reflexivity. Qed.

Section fresh_names.
Implicit Types (folder : directory) (s t name mod_date : str).

Lemma dated_name_counter_inj mod_date name : Inj (=) (=)
  (λ counter, dated_name_counter mod_date counter name).
Proof.
  intros j j' Heq. unfold dated_name_counter in Heq.
  do 2 apply app_inv_head in Heq. apply app_inv_tail in Heq.
  by apply (inj code_points), (inj pretty) in Heq.
Qed.

Lemma dated_name_ne_counter mod_date name counter :
  dated_name mod_date name ≠ dated_name_counter mod_date counter name.
Proof.
  unfold dated_name, dated_name_counter. intros Heq.
  do 2 apply app_inv_head in Heq.
  apply (f_equal length) in Heq.
  rewrite !length_app in Heq. simpl in Heq. lia.
Qed.

Lemma path_exists_lookup folder name :
  path_exists folder name = true → is_Some (folder !! name).
Proof.
  unfold path_exists. by destruct (folder !! name) as [entry|].
Qed.

(** The name the loop stops at does not exist, and is the name the loop
    was entered with or one with a counter. *)
Lemma free_dated_name_Some fuel folder mod_date name new_name counter x :
  free_dated_name fuel folder mod_date name new_name counter = Some x →
  path_exists folder x = false ∧
  (x = new_name ∨
   ∃ j, (counter ≤ j)%nat ∧ x = dated_name_counter mod_date j name).
Proof.
  revert new_name counter.
  induction fuel as [|fuel IH]; intros new_name counter; simpl.
  - destruct (path_exists folder new_name) eqn:Hex; [done|].
    intros [= <-]. split; [done|by left].
  - destruct (path_exists folder new_name) eqn:Hex.
    + intros [Hx [->|(j & Hj & ->)]]%IH; (split; [done|right]).
      * by exists counter.
      * exists j. split; [lia|done].
    + intros [= <-]. split; [done|by left].
Qed.

(** When the fuel runs out, every name tried exists. *)
Lemma free_dated_name_None fuel folder mod_date name new_name counter :
  free_dated_name fuel folder mod_date name new_name counter = None →
  path_exists folder new_name = true ∧
  ∀ j, (counter ≤ j < counter + fuel)%nat →
    path_exists folder (dated_name_counter mod_date j name) = true.
Proof.
  revert new_name counter.
  induction fuel as [|fuel IH]; intros new_name counter; simpl.
  - destruct (path_exists folder new_name) eqn:Hex; [|done].
    intros _. split; [done|]. lia.
  - destruct (path_exists folder new_name) eqn:Hex; [|done].
    intros [Hfirst Hrest]%IH.
    split; [done|]. intros j Hj.
    destruct (decide (j = counter)) as [->|Hne]; [done|].
    apply Hrest. lia.
Qed.

(** A directory cannot hold more names than it has entries: the loop finds
    a free name before the fuel runs out. *)
Lemma free_dated_name_is_Some folder mod_date name :
  is_Some (free_dated_name (size folder) folder mod_date name
             (dated_name mod_date name) 1).
Proof.
  destruct (free_dated_name _ _ _ _ _ _) as [x|] eqn:Hfree; [by eexists|].
  exfalso. apply free_dated_name_None in Hfree as [Hfirst Hrest].
  set (tried := dated_name mod_date name ::
        ((λ j, dated_name_counter mod_date j name) <$> seq 1 (size folder))).
  assert (NoDup tried) as Hnodup.
  { apply NoDup_cons. split.
    - intros (j & Heq & _)%list_elem_of_fmap.
      by apply dated_name_ne_counter in Heq.
    - apply (@NoDup_fmap_2 _ _ _ (dated_name_counter_inj mod_date name)),
        NoDup_seq. }
  assert (tried ⊆+ elements (dom folder)) as Hsub.
  { apply NoDup_submseteq; [done|]. intros x Hx.
    apply elem_of_elements, elem_of_dom, path_exists_lookup.
    apply elem_of_cons in Hx as [->|(j & -> & Hj)%list_elem_of_fmap]; [done|].
    apply Hrest. apply elem_of_seq in Hj. lia. }
  apply submseteq_length in Hsub. unfold tried in Hsub. simpl in Hsub.
  rewrite length_fmap, length_seq in Hsub.
  assert (length (elements (dom folder)) = size folder) as Hsize.
  { by rewrite <- size_dom. }
  lia.
Qed.
End fresh_names.

Section renaming.
Context `{Unicode}.
Implicit Types (os : system) (folder : directory) (name mod_date : str).
Implicit Types (names : list str).

Lemma no_symlinks_stat folder name entry :
  no_symlinks folder → folder !! name = Some entry → stat entry = Some entry.
Proof.
  intros Hno Hentry. destruct entry as [| |target|]; try done.
  by destruct (Hno name target).
Qed.

Lemma no_symlinks_exists folder name :
  no_symlinks folder → path_exists folder name = false → folder !! name = None.
Proof.
  intros Hno. unfold path_exists.
  destruct (folder !! name) as [entry|] eqn:Hentry; [|done]. simpl.
  by rewrite (no_symlinks_stat _ _ _ Hno Hentry).
Qed.

(** One step of the loop, in a directory without links, either leaves the
    directory alone, on an entry that is settled or missing, or moves an
    undated file to a free name. *)
Lemma rename_file_spec folder name :
  no_symlinks folder →
  ((∀ entry, folder !! name = Some entry → settled name entry) ∧
   rename_file folder name = folder) ∨
  ∃ mod_date records new_name,
    folder !! name = Some (File mod_date records) ∧
    file_starts_with_date name = false ∧
    folder !! new_name = None ∧
    (new_name = dated_name mod_date name ∨
     ∃ j, (1 ≤ j)%nat ∧ new_name = dated_name_counter mod_date j name) ∧
    rename_file folder name =
      <[new_name := File mod_date records]> (delete name folder).
Proof.
  intros Hno. unfold rename_file.
  destruct (folder !! name) as [entry|] eqn:Hname; [|by left].
  rewrite (no_symlinks_stat _ _ _ Hno Hname).
  destruct entry as [mod_date records|content|target|];
    try (left; split; [by intros ? [= <-] ??|done]).
  destruct (file_starts_with_date name) eqn:Hdated.
  { left. split; [|done]. by intros ? [= <-] ??. }
  destruct (free_dated_name_is_Some folder mod_date name) as [new_name Hfree].
  rewrite Hfree. apply free_dated_name_Some in Hfree as [Hnew Hshape].
  apply no_symlinks_exists in Hnew; [|done].
  right. by exists mod_date, records, new_name.
Qed.

Lemma dated_names_start_with_date mod_date name new_name :
  date_time_format mod_date →
  (new_name = dated_name mod_date name ∨
   ∃ j, (1 ≤ j)%nat ∧ new_name = dated_name_counter mod_date j name) →
  file_starts_with_date new_name = true.
Proof.
  intros Hdate [->|(j & _ & ->)]; by apply file_starts_with_date_app.
Qed.

Lemma rename_file_no_symlinks folder name :
  no_symlinks folder → no_symlinks (rename_file folder name).
Proof.
  intros Hno.
  destruct (rename_file_spec folder name Hno)
    as [[_ ->]|(mod_date & records & new_name & Hname & _ & Hnew & _ & ->)];
    [done|].
  intros name' target. rewrite lookup_insert. case_decide; [done|].
  rewrite lookup_delete. case_decide; [done|]. apply Hno.
Qed.

Lemma rename_file_entries folder name :
  no_symlinks folder →
  (map_to_list (rename_file folder name)).*2 ≡ₚ (map_to_list folder).*2.
Proof.
  intros Hno.
  destruct (rename_file_spec folder name Hno)
    as [[_ ->]|(mod_date & records & new_name & Hname & _ & Hnew & _ & ->)];
    [done|].
  rewrite map_to_list_insert by (by rewrite lookup_delete_ne by congruence).
  rewrite <- (map_to_list_delete folder name (File mod_date records)) by done.
  done.
Qed.

Lemma rename_file_settled folder name name' entry :
  no_symlinks folder →
  folder !! name' = Some entry → settled name' entry →
  rename_file folder name !! name' = Some entry.
Proof.
  intros Hno Hentry Hsettled.
  destruct (rename_file_spec folder name Hno)
    as [[_ ->]|(mod_date & records & new_name & Hname & Hundated & Hnew & _ & ->)];
    [done|].
  assert (name ≠ name') as Hne.
  { intros <-. simplify_eq. by rewrite (Hsettled _ _ eq_refl) in Hundated. }
  rewrite lookup_insert_ne by congruence. by rewrite lookup_delete_ne.
Qed.


Lemma rename_file_dates folder name :
  no_symlinks folder →
  dates_well_formed folder → dates_well_formed (rename_file folder name).
Proof.
  intros Hno Hdates.
  destruct (rename_file_spec folder name Hno)
    as [[_ ->]|(mod_date & records & new_name & Hname & _ & Hnew & _ & ->)];
    [done|].
  intros name' mod_date' records'. rewrite lookup_insert.
  case_decide; [intros [= <- <-]; by eapply Hdates|].
  rewrite lookup_delete. case_decide; [done|]. apply Hdates.
Qed.


(** The loop, cut short or not, ends in a directory that a number of
    steps lead to. *)
Lemma rename_loop_ind (P : directory → Prop) os names folder :
  P folder →
  (∀ folder' name, P folder' → P (rename_file folder' name)) →
  P (rename_loop os folder names).1.
Proof.
  intros Hfolder Hstep. revert folder Hfolder.
  induction names as [|name names IH]; intros folder Hfolder; [done|].
  simpl. destruct (raises os folder name); [done|]. by apply IH, Hstep.
Qed.

(** When nothing fails the loop goes through all the names. *)
Lemma rename_loop_foldl os names folder :
  never_raises os →
  rename_loop os folder names = (foldl rename_file folder names, None).
Proof.
  intros Hos. revert folder.
  induction names as [|name names IH]; intros folder; [done|].
  simpl. by rewrite Hos, IH.
Qed.

Lemma rename_foldl_no_symlinks names folder :
  no_symlinks folder → no_symlinks (foldl rename_file folder names).
Proof.
  revert folder. induction names as [|n names IH]; intros folder ?; [done|].
  simpl. by apply IH, rename_file_no_symlinks.
Qed.


Lemma rename_foldl_dates names folder :
  no_symlinks folder → dates_well_formed folder →
  dates_well_formed (foldl rename_file folder names).
Proof.
  revert folder. induction names as [|n names IH]; intros folder ??; [done|].
  simpl. apply IH; [by apply rename_file_no_symlinks|].
  by apply rename_file_dates.
Qed.


(** After the loop, a file is dated or was not in the listing. *)
Lemma rename_foldl_dated names folder name mod_date records :
  no_symlinks folder → dates_well_formed folder →
  (∀ name' mod_date' records',
    folder !! name' = Some (File mod_date' records') →
    file_starts_with_date name' = true ∨ name' ∈ names) →
  foldl rename_file folder names !! name = Some (File mod_date records) →
  file_starts_with_date name = true.
Proof.
  revert folder.
  induction names as [|n names IH]; intros folder Hno Hdates Hinv.
  { simpl. intros [?|[]%elem_of_nil]%Hinv. done. }
  simpl. apply IH; [by apply rename_file_no_symlinks|
                    by apply rename_file_dates|].
  intros name' mod_date' records' Hname'.
  destruct (rename_file_spec folder n Hno)
    as [[Hsettled Heq]|(d & r & new_name & Hn & _ & Hnew & Hshape & Heq)];
    rewrite Heq in Hname'.
  - destruct (Hinv _ _ _ Hname') as [?|[->|?]%elem_of_cons]; [by left| |by right].
    left. by eapply Hsettled.
  - rewrite lookup_insert in Hname'. case_decide as Hcase.
    + subst name'. left.
      eapply dated_names_start_with_date; [by eapply Hdates|done].
    + rewrite lookup_delete in Hname'. case_decide; [done|].
      destruct (Hinv _ _ _ Hname') as [?|[->|?]%elem_of_cons];
        [by left|done|by right].
Qed.


(** On a directory where every file is dated the loop does nothing. *)
Lemma rename_foldl_id names folder :
  no_symlinks folder →
  (∀ name mod_date records,
    folder !! name = Some (File mod_date records) →
    file_starts_with_date name = true) →
  foldl rename_file folder names = folder.
Proof.
  intros Hno Hdated. induction names as [|n names IH]; [done|]. simpl.
  assert (rename_file folder n = folder) as ->; [|done].
  destruct (rename_file_spec folder n Hno)
    as [[_ ->]|(d & r & new_name & Hn & Hundated & _)]; [done|].
  by rewrite (Hdated _ _ _ Hn) in Hundated.
Qed.

(** The pass on a system that lists the directory and on which nothing
    fails. *)
Lemma rename_pass_foldl os folder :
  lists_directory os → never_raises os →
  ∃ names,
    names ≡ₚ elements (dom folder) ∧
    rename_files_with_date_prefix os folder =
      (foldl rename_file folder names, None).
Proof.
  intros Hlist Hos. destruct (Hlist folder) as (names & Hnames & Hperm).
  exists names. split; [done|]. unfold rename_files_with_date_prefix.
  by rewrite Hnames, rename_loop_foldl.
Qed.

(** The pass, cut short or not. *)
Lemma rename_pass_ind (P : directory → Prop) os folder :
  P folder →
  (∀ folder' name, P folder' → P (rename_file folder' name)) →
  P (rename_files_with_date_prefix os folder).1.
Proof.
  intros Hfolder Hstep. unfold rename_files_with_date_prefix.
  destruct (iterdir os folder) as [e|names]; [done|].
  by apply rename_loop_ind.
Qed.

Lemma elem_of_listing names folder name :
  names ≡ₚ elements (dom folder) → is_Some (folder !! name) → name ∈ names.
Proof.
  intros Hperm Hname. rewrite Hperm.
  by apply elem_of_elements, elem_of_dom.
Qed.
End renaming.

Lemma by_name_lists : lists_directory by_name.
Proof. intros folder. by eexists. Qed.

Lemma by_name_reversed_lists : lists_directory by_name_reversed.
Proof.
  intros folder. eexists. split; [done|]. apply reverse_Permutation.
Qed.

Lemma logs0_no_symlinks : no_symlinks logs0.
Proof.
  assert (map_Forall (λ (_ : str) entry,
            match entry with
            | Symlink _ => False
            | _ => True
            end) logs0) as Hall.
  { apply map_Forall_to_list.
    let l := eval vm_compute in (map_to_list logs0) in
      replace (map_to_list logs0) with l by (vm_compute; reflexivity).
    repeat (apply Forall_cons; split; [exact I|]).
    apply Forall_nil_2. }
  intros name target Hname. exact (Hall _ _ Hname).
Qed.

Lemma logs0_dates : dates_well_formed logs0.
Proof.
  assert (map_Forall (λ (_ : str) entry,
            match entry with
            | File mod_date _ => date_time_format mod_date
            | _ => True
            end) logs0) as Hall.
  { apply map_Forall_to_list.
    let l := eval vm_compute in (map_to_list logs0) in
      replace (map_to_list logs0) with l by (vm_compute; reflexivity).
    repeat (apply Forall_cons; split;
            [vm_compute; first [reflexivity | exact I]|]).
    apply Forall_nil_2. }
  intros name mod_date records Hname. exact (Hall _ _ Hname).
Qed.

Section renaming_properties.
Context `{Unicode}.
Implicit Types (os : system) (folder : directory) (name mod_date : str).

(** X12. In a directory without symbolic links the renaming pass loses
    nothing and overwrites nothing, whatever the order of the listing and
    also when an exception cuts it short: the entries of the directory
    after the pass are the entries before it, each once.  And the loop on
    the collisions ends: started in a directory for a modification date
    and a name, it stops within as many rounds as the directory has
    entries, at a name under which the directory holds nothing. *)
Theorem rename_keeps_entries os folder :
  no_symlinks folder →
  (map_to_list (rename_files_with_date_prefix os folder).1).*2 ≡ₚ
    (map_to_list folder).*2 ∧
  ∀ mod_date original_name, ∃ new_name,
    free_dated_name (size folder) folder mod_date original_name
      (dated_name mod_date original_name) 1 = Some new_name ∧
    folder !! new_name = None.
Proof.
  intros Hno. split.
  - apply (rename_pass_ind
      (λ folder', no_symlinks folder' ∧
                  (map_to_list folder').*2 ≡ₚ (map_to_list folder).*2));
      [done|].
    intros folder' name [Hno' Hperm]. split.
    + by apply rename_file_no_symlinks.
    + by rewrite rename_file_entries.
  - intros mod_date original_name.
    destruct (free_dated_name_is_Some folder mod_date original_name)
      as [new_name Hfree].
    exists new_name. split; [done|].
    apply free_dated_name_Some in Hfree as [Hnew _].
    by apply no_symlinks_exists.
Qed.

(** X13. In a directory without symbolic links the renaming pass leaves in
    place, under the same name, every directory, every other entry that
    is not a regular file and every file whose name starts with a date;
    also when an exception cuts it short. *)
Theorem rename_leaves_settled os folder name entry :
  no_symlinks folder →
  folder !! name = Some entry →
  settled name entry →
  (rename_files_with_date_prefix os folder).1 !! name = Some entry.
Proof.
  intros Hno Hname Hsettled.
  apply (rename_pass_ind
    (λ folder', no_symlinks folder' ∧ folder' !! name = Some entry));
    [done|].
  intros folder' name' [Hno' Hname']. split.
  - by apply rename_file_no_symlinks.
  - by apply rename_file_settled.
Qed.


(** X15. On a system that lists every name of the directory and on which
    no call fails, in a directory without symbolic links whose
    modification dates have the format [YYYY-MM-DD_HH-MM], the pass ends
    without an exception and every regular file of the directory has,
    after it, a name that starts with a date. *)
Theorem rename_dates_every_file os folder :
  lists_directory os → never_raises os →
  no_symlinks folder → dates_well_formed folder →
  ∃ folder',
    rename_files_with_date_prefix os folder = (folder', None) ∧
    ∀ name mod_date records,
      folder' !! name = Some (File mod_date records) →
      file_starts_with_date name = true.
Proof.
  intros Hlist Hos Hno Hdates.
  destruct (rename_pass_foldl os folder Hlist Hos) as (names & Hperm & ->).
  eexists. split; [done|]. intros name mod_date records.
  apply rename_foldl_dated; [done..|].
  intros name' mod_date' records' Hname'. right.
  by eapply elem_of_listing.
Qed.

(** X16. Under the same conditions a second pass, on a system that may
    list the names in another order and on which no call fails either,
    ends without an exception and changes nothing. *)
Theorem rename_twice os os' folder :
  lists_directory os → never_raises os →
  lists_directory os' → never_raises os' →
  no_symlinks folder → dates_well_formed folder →
  ∃ folder',
    rename_files_with_date_prefix os folder = (folder', None) ∧
    rename_files_with_date_prefix os' folder' = (folder', None).
Proof.
  intros Hlist Hos Hlist' Hos' Hno Hdates.
  destruct (rename_pass_foldl os folder Hlist Hos) as (names & Hperm & ->).
  eexists. split; [done|].
  destruct (rename_pass_foldl os' (foldl rename_file folder names) Hlist' Hos')
    as (names' & _ & ->).
  f_equal. apply rename_foldl_id; [by apply rename_foldl_no_symlinks|].
  intros name mod_date records.
  apply rename_foldl_dated; [done..|].
  intros name' mod_date' records' Hname'. right.
  by eapply elem_of_listing.
Qed.

(** X17. A symbolic link that leads nowhere does not exist for the loop on
    the collisions, and [rename] replaces it: in a directory of two
    entries, a file whose name does not start with a date and such a link
    under the dated name of the file, the pass ends with the file under
    the name of the link, and the link is lost. *)
Theorem rename_replaces_dangling_link os name mod_date records :
  lists_directory os → never_raises os →
  date_time_format mod_date →
  file_starts_with_date name = false →
  rename_files_with_date_prefix os
    {[ name := File mod_date records;
       dated_name mod_date name := Symlink None ]} =
  ({[ dated_name mod_date name := File mod_date records ]}, None).
Proof.
  intros Hlist Hos Hdate Hundated.
  set (new_name := dated_name mod_date name).
  assert (file_starts_with_date new_name = true) as Hdated
    by (by apply file_starts_with_date_app).
  assert (name ≠ new_name) as Hne by (intros Heq; congruence).
  set (folder := ({[ name := File mod_date records;
                     new_name := Symlink None ]} : directory)).
  set (folder' := ({[ new_name := File mod_date records ]} : directory)).
  assert (folder !! name = Some (File mod_date records)) as Hname
    by apply lookup_insert_eq.
  assert (folder !! new_name = Some (Symlink None)) as Hnew.
  { unfold folder. by rewrite lookup_insert_ne, lookup_singleton_eq. }
  assert (free_dated_name (size folder) folder mod_date name new_name 1
          = Some new_name) as Hfree.
  { assert (path_exists folder new_name = false) as Hex
      by (unfold path_exists; by rewrite Hnew).
    destruct (size folder); simpl; by rewrite Hex. }
  assert (rename_file folder name = folder') as Hfile.
  { unfold rename_file. rewrite Hname. cbn [stat]. rewrite Hundated.
    fold new_name. rewrite Hfree. unfold folder, folder'.
    rewrite delete_insert_eq, delete_singleton_ne by done.
    apply insert_singleton_eq. }
  assert (rename_file folder new_name = folder) as Hlink.
  { unfold rename_file. by rewrite Hnew. }
  assert (rename_file folder' name = folder') as Hfile'.
  { unfold rename_file, folder'. by rewrite lookup_singleton_ne. }
  assert (rename_file folder' new_name = folder') as Hlink'.
  { unfold rename_file, folder'. rewrite lookup_singleton_eq. cbn [stat].
    by rewrite Hdated. }
  destruct (rename_pass_foldl os folder Hlist Hos) as (names & Hperm & ->).
  f_equal.
  assert (elements (dom folder) ≡ₚ [name; new_name]) as Hdom.
  { unfold folder. rewrite dom_insert_L, dom_singleton_L.
    rewrite elements_union_singleton by set_solver.
    by rewrite elements_singleton. }
  rewrite Hdom in Hperm. symmetry in Hperm.
  apply Permutation_length_2_inv in Hperm as [-> | ->]; simpl.
  - by rewrite Hfile, Hlink'.
  - by rewrite Hlink, Hfile.
Qed.
End renaming_properties.

Lemma rename_keeps_entries_witness :
  (map_to_list (rename_files_with_date_prefix by_name logs0).1).*2 ≡ₚ
    (map_to_list logs0).*2.
Proof. apply (rename_keeps_entries by_name logs0), logs0_no_symlinks. Defined.

Lemma rename_leaves_settled_witness :
  (rename_files_with_date_prefix by_name logs0).1
    !! code_points "archive" = Some (Dir ∅) ∧
  (rename_files_with_date_prefix by_name logs0).1
    !! code_points "2024-03-05_14-30_digital.csv" =
    Some (File (code_points "2024-03-05_14-30") [["id"]]).
Proof.
  split.
  - apply rename_leaves_settled;
      [apply logs0_no_symlinks|reflexivity|]. by intros ??.
  - apply rename_leaves_settled;
      [apply logs0_no_symlinks|reflexivity|]. intros ?? _. reflexivity.
Defined.


Lemma rename_dates_every_file_witness :
  ∃ folder',
    rename_files_with_date_prefix by_name logs0 = (folder', None) ∧
    ∀ name mod_date records,
      folder' !! name = Some (File mod_date records) →
      file_starts_with_date name = true.
Proof.
  apply (rename_dates_every_file by_name logs0).
  - apply by_name_lists.
  - by intros ??.
  - apply logs0_no_symlinks.
  - apply logs0_dates.
Defined.

Lemma rename_twice_witness :
  ∃ folder',
    rename_files_with_date_prefix by_name logs0 = (folder', None) ∧
    rename_files_with_date_prefix by_name_reversed folder' = (folder', None).
Proof.
  apply (rename_twice by_name by_name_reversed logs0).
  - apply by_name_lists.
  - by intros ??.
  - apply by_name_reversed_lists.
  - by intros ??.
  - apply logs0_no_symlinks.
  - apply logs0_dates.
Defined.

Lemma rename_replaces_dangling_link_witness :
  rename_files_with_date_prefix by_name
    {[ code_points "digital.csv" := File (code_points "2024-03-05_14-30") [];
       code_points "2024-03-05_14-30_digital.csv" := Symlink None ]} =
  ({[ code_points "2024-03-05_14-30_digital.csv" :=
        File (code_points "2024-03-05_14-30") [] ]}, None).
Proof.
  apply (rename_replaces_dangling_link by_name (code_points "digital.csv")
           (code_points "2024-03-05_14-30") []).
  - apply by_name_lists.
  - by intros ??.
  - vm_compute. reflexivity.
  - vm_compute. reflexivity.
Defined.
